(** * skytalons: the request guard and the Keitaro forwarder

    A shallow embedding of [index.js] (and of the older variant of the same
    server, which shares [normalizeIp], [detectClientIp] and the image
    extraction) together with the properties its description states.

    Conventions of the embedding.
    - A JavaScript string is a [string]: a sequence of code units.  Node
      hands header values over as Latin-1 strings, one code unit per byte,
      which is exactly what [ascii] holds; bodies are modelled over the same
      alphabet.
    - Numbers that the code uses as indices, counters and millisecond clock
      readings are [Z].
    - The module-level [ipCache] is a [gmap string Entry]; the file
      [logs/blocked.log] and the requests sent to proxycheck.io are lists
      kept in the [World] that every operation threads through.
    - [guard] and [isProxyOrVPN] are first given as run to their end with
      no other request in between, which is how the server behaves when
      each request is served before the next arrives; requests that
      overlap at [await fetch] are given by the two halves of [guard],
      [guardBegin] and [guardEnd]. *)

From Stdlib Require Import ZArith NArith Ascii String List Bool Lia.
From stdpp Require Import base option gmap strings.
Import ListNotations.

Local Open Scope string_scope.
Local Open Scope Z_scope.

(** ** JavaScript strings *)

Module JsString.

Definition code (c : ascii) : N := N_of_ascii c.

Definition between (lo hi n : N) : bool := ((lo <=? n) && (n <=? hi))%N.

(** [String.prototype.toLowerCase] on one Latin-1 code unit: [A-Z] and the
    accented capitals U+00C0..U+00DE (U+00D7 is the multiplication sign). *)
Definition lowerChar (c : ascii) : ascii :=
  let n := code c in
  if between 65 90 n || (between 192 222 n && negb (n =? 215)%N)
  then ascii_of_N (n + 32) else c.

Fixpoint toLowerCase (s : string) : string :=
  match s with
  | EmptyString => EmptyString
  | String c r => String (lowerChar c) (toLowerCase r)
  end.

(** White space and line terminators, as [trim] and the class [\s] see
    them: TAB, LF, VT, FF, CR, SP and NBSP. *)
Definition isSpace (c : ascii) : bool :=
  let n := code c in between 9 13 n || (n =? 32)%N || (n =? 160)%N.

Definition isEmpty (s : string) : bool :=
  match s with EmptyString => true | String _ _ => false end.

(** Truthiness of a string value. *)
Definition truthy (s : string) : bool := negb (isEmpty s).

Fixpoint trimStart (s : string) : string :=
  match s with
  | EmptyString => EmptyString
  | String c r => if isSpace c then trimStart r else s
  end.

Fixpoint trimEnd (s : string) : string :=
  match s with
  | EmptyString => EmptyString
  | String c r =>
      let r' := trimEnd r in
      if isSpace c && isEmpty r' then EmptyString else String c r'
  end.

Definition trim (s : string) : string := trimEnd (trimStart s).

(** [s.split(sep)] for a one-character separator; never an empty array. *)
Fixpoint split (sep : ascii) (s : string) : list string :=
  match s with
  | EmptyString => [EmptyString]
  | String c r =>
      if Ascii.eqb c sep then EmptyString :: split sep r
      else match split sep r with
           | [] => [String c EmptyString]
           | h :: t => String c h :: t
           end
  end.

Fixpoint startsWith (p s : string) : bool :=
  match p, s with
  | EmptyString, _ => true
  | String a p', String b s' => Ascii.eqb a b && startsWith p' s'
  | String _ _, EmptyString => false
  end.

Fixpoint drop (n : nat) (s : string) : string :=
  match n, s with
  | O, _ => s
  | S n', String _ r => drop n' r
  | S _, EmptyString => EmptyString
  end.

Fixpoint take (n : nat) (s : string) : string :=
  match n, s with
  | O, _ => EmptyString
  | S n', String c r => String c (take n' r)
  | S _, EmptyString => EmptyString
  end.

Definition len (s : string) : Z := Z.of_nat (String.length s).

(** Position of the first occurrence of [needle] in [s], counted from the
    head of [s]. *)
Fixpoint find (needle s : string) : option nat :=
  if startsWith needle s then Some O
  else match s with
       | EmptyString => None
       | String _ r => option_map S (find needle r)
       end.

(** [s.indexOf(needle, from)]: the start is clamped into [0, length]. *)
Definition indexOf (needle s : string) (from : Z) : Z :=
  let k := Z.to_nat (Z.min (Z.max from 0) (len s)) in
  match find needle (drop k s) with
  | Some i => Z.of_nat (k + i)
  | None => -1
  end.

(** [s[i]]: [None] is [undefined]. *)
Definition at_ (s : string) (i : Z) : option ascii :=
  if i <? 0 then None else String.get (Z.to_nat i) s.

(** [s.substring(a, b)]: both ends clamped into [0, length], then put in
    order. *)
Definition substring (s : string) (a b : Z) : string :=
  let clamp x := Z.min (Z.max x 0) (len s) in
  let lo := Z.min (clamp a) (clamp b) in
  let hi := Z.max (clamp a) (clamp b) in
  take (Z.to_nat (hi - lo)) (drop (Z.to_nat lo) s).

(** [String(v)] of a value that is a character or [undefined]. *)
Definition ofChar (c : option ascii) : string :=
  match c with
  | Some a => String a EmptyString
  | None => "undefined"
  end.

End JsString.

(** ** Regular expressions

    The literals that the source calls [test] on use characters, [\s],
    [\b], [^], grouping, alternation and [?]: no repetition, so matching is
    by recursion on the expression, and [test] asks only whether some
    position matches. *)

Module Regex.
Import JsString.

Inductive regex : Type :=
| Chr (c : ascii)
| Space
| WordB
| Bol
| Eps
| Cat (r1 r2 : regex)
| Alt (r1 r2 : regex)
| Opt (r : regex).

Fixpoint lit (s : string) : regex :=
  match s with
  | EmptyString => Eps
  | String c EmptyString => Chr c
  | String c r => Cat (Chr c) (lit r)
  end.

Fixpoint alts (rs : list regex) : regex :=
  match rs with
  | [] => Eps
  | [r] => r
  | r :: rest => Alt r (alts rest)
  end.

(** Canonicalize of the specification of the language, without the
    [u] flag: the upper-case code unit, unless a code unit above 127
    would become one below 128.  U+00B5 and U+00FF have their capitals
    outside Latin-1. *)
Definition canon (c : ascii) : N :=
  let n := code c in
  if between 97 122 n || (between 224 254 n && negb (n =? 247)%N)
  then (n - 32)%N
  else if (n =? 181)%N then 924%N
  else if (n =? 255)%N then 376%N
  else n.

Definition sameChar (ignoreCase : bool) (a b : ascii) : bool :=
  if ignoreCase then (canon a =? canon b)%N else Ascii.eqb a b.

Definition isWordChar (c : option ascii) : bool :=
  match c with
  | None => false
  | Some a =>
      let n := code a in
      between 97 122 n || between 65 90 n || between 48 57 n || (n =? 95)%N
  end.

Definition head (s : string) : option ascii :=
  match s with EmptyString => None | String c _ => Some c end.

(** [matchAt i r prev s k]: [r] matches a prefix of [s], the character
    before [s] being [prev], and [k] accepts what follows. *)
Fixpoint matchAt (ignoreCase : bool) (r : regex) (prev : option ascii)
    (s : string) (k : option ascii -> string -> bool) : bool :=
  match r with
  | Chr c =>
      match s with
      | String a s' => if sameChar ignoreCase a c then k (Some a) s' else false
      | EmptyString => false
      end
  | Space =>
      match s with
      | String a s' => if isSpace a then k (Some a) s' else false
      | EmptyString => false
      end
  | WordB =>
      if xorb (isWordChar prev) (isWordChar (head s)) then k prev s else false
  | Bol => match prev with None => k prev s | Some _ => false end
  | Eps => k prev s
  | Cat r1 r2 =>
      matchAt ignoreCase r1 prev s (fun p s' => matchAt ignoreCase r2 p s' k)
  | Alt r1 r2 => matchAt ignoreCase r1 prev s k || matchAt ignoreCase r2 prev s k
  | Opt r1 => matchAt ignoreCase r1 prev s k || k prev s
  end.

Fixpoint searchFrom (ignoreCase : bool) (r : regex) (prev : option ascii)
    (s : string) : bool :=
  matchAt ignoreCase r prev s (fun _ _ => true)
  || match s with
     | EmptyString => false
     | String c s' => searchFrom ignoreCase r (Some c) s'
     end.

Record RegExp := { source : regex; ignoreCase : bool }.

(** [re.test(s)] for a literal without the [g] or [y] flag. *)
Definition test (re : RegExp) (s : string) : bool :=
  searchFrom (ignoreCase re) (source re) None s.

(** The literal [/src/i] and the literal [/src/]. *)
Definition ci (r : regex) : RegExp := {| source := r; ignoreCase := true |}.
Definition cs (r : regex) : RegExp := {| source := r; ignoreCase := false |}.

End Regex.

(** ** The data of the server *)

(** A value stored in [ipCache].  Every object the server stores carries
    the three fields; [isProxy] is optional because [isProxyOrVPN] asks
    whether the field is there. *)
Record Entry := {
  isProxy : option bool;
  last : Z;
  count : Z
}.

(** One line of [logs/blocked.log], before it is rendered. *)
Record LogLine := {
  stamp : string;
  tag : string;
  logIp : string;
  logUa : string
}.

Definition render (l : LogLine) : string :=
  "[" +:+ stamp l +:+ "] [" +:+ tag l +:+ "] IP=" +:+ logIp l
      +:+ " UA=" +:+ logUa l +:+ String (ascii_of_N 10) EmptyString.

(** What is shared by all requests: the cache, the log file (the lines
    handed to [fs.appendFile], in the order of the calls), and the requests
    sent to the reputation service so far. *)
Record World := {
  ipCache : gmap string Entry;
  blockedLog : list LogLine;
  fetched : list string
}.

Definition emptyWorld : World :=
  {| ipCache := ∅; blockedLog := []; fetched := [] |}.

Definition setCache (c : gmap string Entry) (w : World) : World :=
  {| ipCache := c; blockedLog := blockedLog w; fetched := fetched w |}.

Definition appendLog (l : LogLine) (w : World) : World :=
  {| ipCache := ipCache w; blockedLog := blockedLog w ++ [l];
     fetched := fetched w |}.

Definition recordFetch (url : string) (w : World) : World :=
  {| ipCache := ipCache w; blockedLog := blockedLog w;
     fetched := fetched w ++ [url] |}.

Record Socket := { remoteAddress : option string }.

(** An express request.  Header names are lower-case keys; [ip] is what
    express resolves under [trust proxy]; [suspicious] and
    [suspiciousReason] are the two properties [guard] writes. *)
Record Request := {
  headers : gmap string string;
  ip : option string;
  socket : option Socket;
  suspicious : bool;
  suspiciousReason : string
}.

(** JSON, as [resp.json()] delivers it. *)
#[warnings="-register-all"]
Inductive Json : Type :=
| JNull
| JBool (b : bool)
| JNum (n : Z)
| JStr (s : string)
| JArr (items : list Json)
| JObj (props : list (string * Json)).

(** What the reputation service does with one request: the connection
    fails, the body is not JSON, or a JSON value arrives. *)
Inductive FetchResult : Type :=
| NetworkFailure
| BadBody
| Body (data : Json).

(** What one request meets outside the server: the answer proxycheck.io
    would give, the clock at [Date.now()] inside [isProxyOrVPN] and inside
    [guard], and the time stamp [logFlag] prints. *)
Record Ambient := {
  proxycheck : FetchResult;
  nowLookup : Z;
  nowGuard : Z;
  isoLog : string
}.

(** ** Effects: a state and exception monad over [World]

    A thrown exception keeps the changes made so far. *)

Inductive Exn := FetchError | SyntaxError | TypeError.

Inductive Result (A : Type) : Type :=
| Throw (e : Exn)
| Return (a : A).
Arguments Throw {A} e.
Arguments Return {A} a.

Definition M (A : Type) : Type := World -> Result A * World.

Definition ret {A} (a : A) : M A := fun w => (Return a, w).

Definition throw {A} (e : Exn) : M A := fun w => (Throw e, w).

Definition bind {A B} (m : M A) (f : A -> M B) : M B :=
  fun w =>
    match m w with
    | (Return a, w') => f a w'
    | (Throw e, w') => (Throw e, w')
    end.

Definition tryCatch {A} (m : M A) (handler : Exn -> M A) : M A :=
  fun w =>
    match m w with
    | (Return a, w') => (Return a, w')
    | (Throw e, w') => handler e w'
    end.

Declare Scope js_scope.
Delimit Scope js_scope with js.
Notation "x <- m ;; k" := (bind m (fun x => k))
  (at level 100, m at next level, right associativity) : js_scope.
Notation "m ;; k" := (bind m (fun _ => k))
  (at level 100, right associativity) : js_scope.
Local Open Scope js_scope.

Definition cacheGet (k : string) : M (option Entry) :=
  fun w => (Return (ipCache w !! k), w).

Definition cacheSet (k : string) (e : Entry) : M unit :=
  fun w => (Return tt, setCache (<[k := e]> (ipCache w)) w).

(** ** Helpers *)

(** [String(ip).replace(/^::ffff:/, "").trim()], and the empty string for
    a falsy argument. *)
Definition normalizeIp (ip : string) : string :=
  if JsString.isEmpty ip then ""
  else JsString.trim
         (if JsString.startsWith "::ffff:" ip then JsString.drop 7 ip else ip).

(** [req.socket?.remoteAddress || ""]. *)
Definition remoteOf (req : Request) : string :=
  match socket req with
  | Some sock => default "" (remoteAddress sock)
  | None => ""
  end.

(** The part of [detectClientIp] after the forwarding header gave nothing. *)
Definition detectWithoutHeader (req : Request) : string :=
  match ip req with
  | Some addr =>
      if JsString.truthy addr then normalizeIp addr
      else normalizeIp (remoteOf req)
  | None => normalizeIp (remoteOf req)
  end.

Definition detectClientIp (req : Request) : string :=
  match headers req !! "x-forwarded-for" with
  | Some xff =>
      if JsString.truthy xff then
        let first := JsString.trim (hd "" (JsString.split "," xff)) in
        if JsString.truthy first then normalizeIp first
        else detectWithoutHeader req
      else detectWithoutHeader req
  | None => detectWithoutHeader req
  end.

(** [fs.appendFile(logPath, line, ...)]: the line joins the file; a failed
    write is reported on the console and changes nothing else. *)
Definition logFlag (amb : Ambient) (reason ip ua : string) : M unit :=
  fun w => (Return tt,
            appendLog {| stamp := isoLog amb; tag := reason;
                         logIp := ip; logUa := ua |} w).

(** ** Proxy / VPN detection *)

Module Js.
Import JsString.

Fixpoint assoc (k : string) (props : list (string * Json)) : option Json :=
  match props with
  | [] => None
  | (k', v) :: rest => if String.eqb k k' then Some v else assoc k rest
  end.

Fixpoint digits (s : string) (acc : N) : option N :=
  match s with
  | EmptyString => Some acc
  | String c r =>
      if between 48 57 (code c)
      then digits r (acc * 10 + (code c - 48))%N
      else None
  end.

(** A property name that is an array index: [0], or digits that do not
    start with [0]. *)
Definition arrayIndex (k : string) : option nat :=
  match k with
  | EmptyString => None
  | String c r =>
      if (code c =? 48)%N
      then (if isEmpty r then Some O else None)
      else option_map N.to_nat (digits k 0)
  end.

(** [v[k]] for a value that is neither [null] nor [undefined]; [None] is
    [undefined].  Own properties of objects and elements of arrays are
    found.  What a value inherits (methods, [length]) has neither a
    [proxy] nor a [type] property, and [isProxyOrVPN] reads nothing else,
    so such a property stands as [undefined] here. *)
Definition getProp (v : Json) (k : string) : option Json :=
  match v with
  | JObj props => assoc k props
  | JArr items =>
      match arrayIndex k with
      | Some i => nth_error items i
      | None => None
      end
  | _ => None
  end.

(** [v?.k], [v] possibly [undefined]. *)
Definition optChain (v : option Json) (k : string) : option Json :=
  match v with
  | None | Some JNull => None
  | Some o => getProp o k
  end.

(** [v === "literal"]. *)
Definition isStr (v : option Json) (literal : string) : bool :=
  match v with
  | Some (JStr s) => String.eqb s literal
  | _ => false
  end.

End Js.

(** [await fetch(url)]: the request is sent (and recorded); a failed
    connection rejects.  The value is the response, that is what its
    [json()] will find: [None] when the body does not parse. *)
Definition fetch (amb : Ambient) (url : string) : M (option Json) :=
  fun w =>
    let w' := recordFetch url w in
    match proxycheck amb with
    | NetworkFailure => (Throw FetchError, w')
    | BadBody => (Return None, w')
    | Body data => (Return (Some data), w')
    end.

(** [await resp.json()]. *)
Definition json (resp : option Json) : M Json :=
  match resp with
  | Some data => ret data
  | None => throw SyntaxError
  end.

(** [data[ip]], which throws on [null]. *)
Definition member (data : Json) (k : string) : M (option Json) :=
  match data with
  | JNull => throw TypeError
  | _ => ret (Js.getProp data k)
  end.

Definition proxycheckUrl (ip : string) : string :=
  "https://proxycheck.io/v2/" +:+ ip +:+ "?vpn=1&asn=1".

Definition isProxyOrVPN (amb : Ambient) (ip : string) : M bool :=
  if JsString.isEmpty ip then ret false
  else
    cached <- cacheGet ip ;;
    match cached ≫= isProxy with
    | Some flag => ret flag
    | None =>
        result <-
          tryCatch
            (resp <- fetch amb (proxycheckUrl ip) ;;
             data <- json resp ;;
             info <- member data ip ;;
             ret (Js.isStr (Js.optChain info "proxy") "yes"
                  || Js.isStr (Js.optChain info "type") "VPN"
                  || Js.isStr (Js.optChain info "type") "Hosting"))
            (fun _ => ret false) ;;
        cacheSet ip {| isProxy := Some result;
                       last := nowLookup amb;
                       count := match cached with
                                | Some e => count e
                                | None => 0
                                end |} ;;
        ret result
    end.

(** ** The guard middleware *)

Module Signatures.
Import Regex.

Definition botPatterns : list RegExp :=
  [ ci (lit "bot");
    ci (lit "spider");
    ci (lit "crawl");
    ci (lit "headless");
    ci (Cat (lit "render") (Cat (Opt Space) (lit "bot")));
    ci (lit "monitor");
    ci (lit "curl");
    ci (lit "wget");
    ci (lit "pingdom");
    ci (lit "uptime");
    ci (lit "facebookexternalhit");
    ci (lit "python-requests");
    ci (lit "node-fetch");
    ci (lit "httpclient");
    ci (lit "postmanruntime");
    ci (lit "cf-network");
    ci (lit "datadog");
    ci (lit "newrelic") ].

Definition android : RegExp := cs (lit "android").

Definition strongEmu : list RegExp :=
  [ ci (lit "sdk_gphone");
    ci (lit "google_sdk");
    ci (lit "android sdk built for");
    ci (lit "genymotion");
    ci (lit "bluestacks");
    ci (Alt (lit "noxplayer") (lit "nox"));
    ci (lit "ldplayer");
    ci (lit "memu");
    ci (lit "mumu");
    ci (Alt (lit "virtualbox") (lit "vbox"));
    ci (Cat WordB (Cat (lit "emulator") WordB));
    ci (Cat (lit "arc") (Cat (Opt (Chr " ")) (lit "hon"))) ].

Definition x86 : RegExp :=
  ci (alts [lit "x86_64"; lit "i686"; lit "amd64"]).

Definition knownRealBrands : RegExp :=
  ci (alts [ lit "pixel"; lit "samsung"; lit "sm-"; lit "huawei";
             lit "honor"; lit "xiaomi"; lit "redmi"; lit "oneplus";
             lit "oppo"; lit "vivo"; lit "sony"; lit "xperia";
             lit "motorola"; lit "moto"; lit "nokia"; lit "nothing";
             lit "realme"; lit "lenovo"; lit "tecno"; lit "infinix" ]).

(** [patterns.some((p) => p.test(ua))]. *)
Definition some (patterns : list RegExp) (ua : string) : bool :=
  existsb (fun p => test p ua) patterns.

End Signatures.

(** [req.headers["user-agent"] || ""]. *)
Definition userAgentOf (req : Request) : string :=
  default "" (headers req !! "user-agent").

(** The condition of the first check, on the lower-cased user agent. *)
Definition looksLikeBot (ua : string) : bool :=
  JsString.isEmpty ua || Signatures.some Signatures.botPatterns ua.

(** The condition of the third check: [matchesStrong || matchesWeakCombo]. *)
Definition looksLikeEmulator (ua : string) : bool :=
  let isAndroid := Regex.test Signatures.android ua in
  let weakX86 := Regex.test Signatures.x86 ua in
  let matchesStrong := Signatures.some Signatures.strongEmu ua in
  let matchesWeakCombo :=
    isAndroid && weakX86 && negb (Regex.test Signatures.knownRealBrands ua) in
  matchesStrong || matchesWeakCombo.

(** [req.suspicious = true; req.suspiciousReason = reason]. *)
Definition mark (req : Request) (reason : string) : Request :=
  {| headers := headers req; ip := ip req; socket := socket req;
     suspicious := true; suspiciousReason := reason |}.

(** [req.suspicious = false; req.suspiciousReason = ""]. *)
Definition unmark (req : Request) : Request :=
  {| headers := headers req; ip := ip req; socket := socket req;
     suspicious := false; suspiciousReason := "" |}.

(** The object [guard] takes when the cache has nothing for the address. *)
Definition freshEntry : Entry :=
  {| isProxy := Some false; last := 0; count := 0 |}.

(** The fourth check's update of the entry, [now] being [Date.now()]:
    [if (now - cached.last < 2000) cached.count++; else cached.count = 1;
     cached.last = now]. *)
Definition touch (now : Z) (cached : Entry) : Entry :=
  {| isProxy := isProxy cached;
     last := now;
     count := if now - last cached <? 2000 then count cached + 1 else 1 |}.

Definition guard (amb : Ambient) (req0 : Request) : M Request :=
  let ip := detectClientIp req0 in
  let uaRaw := userAgentOf req0 in
  let ua := JsString.toLowerCase uaRaw in
  let req := unmark req0 in
  (* 1) bots *)
  req <- (if looksLikeBot ua
          then (let req := mark req "bot" in
                logFlag amb "BOT->WHITE" ip uaRaw ;; ret req)
          else ret req) ;;
  (* 2) VPN / proxy *)
  isProxy <- isProxyOrVPN amb ip ;;
  req <- (if isProxy && negb (suspicious req)
          then (let req := mark req "vpn_proxy" in
                logFlag amb "VPN/PROXY->WHITE" ip uaRaw ;; ret req)
          else ret req) ;;
  (* 3) emulators *)
  req <- (if looksLikeEmulator ua && negb (suspicious req)
          then (let req := mark req "emulator" in
                logFlag amb "EMULATOR->WHITE" ip uaRaw ;; ret req)
          else ret req) ;;
  (* 4) rate limit *)
  let now := nowGuard amb in
  found <- cacheGet ip ;;
  let cached := touch now (default freshEntry found) in
  cacheSet ip cached ;;
  req <- (if (count cached >? 5) && negb (suspicious req)
          then (let req := mark req "rate_limit" in
                logFlag amb "RATE_LIMIT->WHITE" ip uaRaw ;; ret req)
          else ret req) ;;
  (* next() *)
  ret req.

(** ** The main endpoint: the identity sent upstream *)

(** The variables of [process.env] that the endpoint reads. *)
Record Env := {
  WHITE_US_IP : option string;
  WHITE_UA_MODE : option string
}.

(** [v || fallback] for a string that may be [undefined]. *)
Definition orElse (v : option string) (fallback : string) : string :=
  match v with
  | Some s => if JsString.truthy s then s else fallback
  | None => fallback
  end.

Definition whiteUSIp (env : Env) : string :=
  orElse (WHITE_US_IP env) "23.239.11.1".

Definition whiteUaMode (env : Env) : string :=
  JsString.toLowerCase (orElse (WHITE_UA_MODE env) "suffix").

Definition uaToSend (env : Env) (req : Request) : string :=
  let origUA := userAgentOf req in
  if suspicious req && String.eqb (whiteUaMode env) "empty" then ""
  else if suspicious req
       then (if JsString.truthy origUA then origUA +:+ " bot" else "bot")
       else origUA.

Definition clientIpToSend (env : Env) (req : Request) : string :=
  if suspicious req then whiteUSIp env else detectClientIp req.

(** ** The main endpoint: reading the answer of the upstream *)

(** [KEITARO_URL], and the [origin] of [new URL(KEITARO_URL)], [None] when
    the constructor throws. *)
Record Site := {
  requestedUrl : string;
  baseOrigin : option string
}.

Definition defaultSite : Site :=
  {| requestedUrl := "https://origin.skytalonsacademy.lol/skytalonsplaying";
     baseOrigin := Some "https://origin.skytalonsacademy.lol" |}.

(** What [fetch(KEITARO_URL, ...)] resolves to: the final URL, and the body
    that [text()] yields, [None] when reading it fails. *)
Record Response := {
  url : string;
  text : option string
}.

Record Payload := {
  image_url : string;
  site_url : string
}.

(** The literal [/^https?:\/\//i]. *)
Definition absoluteUrl : Regex.RegExp :=
  Regex.ci (Regex.Cat Regex.Bol
             (Regex.Cat (Regex.lit "http")
                (Regex.Cat (Regex.Opt (Regex.Chr "s")) (Regex.lit "://")))).

(** [s.replace(/^\/+/, "")]. *)
Fixpoint stripLeadingSlashes (s : string) : string :=
  match s with
  | String c r => if Ascii.eqb c "/" then stripLeadingSlashes r else s
  | EmptyString => EmptyString
  end.

Definition LANDER_NAME : string := "skytalons".

(** The scan for the first [<img], from [const html] to the value of
    [imageUrl] that is sent back. *)
Definition firstImage (site : Site) (html : string) : string :=
  let imgIndex := JsString.indexOf "<img" html 0 in
  if imgIndex =? -1 then ""
  else
    let srcIndex := JsString.indexOf "src=" html imgIndex in
    if srcIndex =? -1 then ""
    else
      let startQuote := JsString.at_ html (srcIndex + 4) in
      let endQuote :=
        JsString.indexOf (JsString.ofChar startQuote) html (srcIndex + 5) in
      let imageUrl :=
        JsString.trim (JsString.substring html (srcIndex + 5) endQuote) in
      if JsString.truthy imageUrl && negb (Regex.test absoluteUrl imageUrl)
      then match baseOrigin site with
           | Some origin =>
               origin +:+ "/lander/" +:+ LANDER_NAME +:+ "/"
                      +:+ stripLeadingSlashes imageUrl
           | None => imageUrl
           end
      else imageUrl.

(** The handler of [index.js] from the answer of [fetch] on; [None] is a
    rejected [fetch].  Whatever is thrown ends in the empty payload. *)
Definition answer (site : Site) (upstream : option Response) : Payload :=
  match upstream with
  | None => {| image_url := ""; site_url := "" |}
  | Some response =>
      if JsString.truthy (url response)
         && negb (String.eqb (url response) (requestedUrl site))
      then {| image_url := ""; site_url := url response |}
      else match text response with
           | None => {| image_url := ""; site_url := "" |}
           | Some html =>
               {| image_url := firstImage site html; site_url := "" |}
           end
  end.

(** The same in the older variant of the server, which names the second
    field [offer_url] and answers a failure with status 500. *)
Inductive OldReply : Type :=
| Ok200 (image offer : string)
| Error500 (error : string).

Definition answerOld (site : Site) (upstream : option Response) : OldReply :=
  match upstream with
  | None => Error500 "Failed to fetch Keitaro URL"
  | Some response =>
      if negb (String.eqb (url response) (requestedUrl site))
      then Ok200 "" (url response)
      else match text response with
           | None => Error500 "Failed to fetch Keitaro URL"
           | Some html => Ok200 (firstImage site html) ""
           end
  end.

(** ** Runs of the server *)

(** The worlds the server can be in between two requests when it serves
    them one after the other: every [guard] has run to its end before the
    next request arrives.  Requests that overlap at [await fetch] are the
    matter of [guardBegin] and [guardEnd] below. *)
Inductive reachable : World -> Prop :=
| reach_start : reachable emptyWorld
| reach_guard amb req w req' w' :
    reachable w ->
    guard amb req w = (Return req', w') ->
    reachable w'.

(** Requests served one after the other, none arriving before the [guard]
    of the one before it has reached [next()]; each comes with what it
    meets outside.  The result lists, per request, the request as [guard]
    leaves it and the world after it. *)
Fixpoint serve (events : list (Ambient * Request)) (w : World)
    : list (Request * World) :=
  match events with
  | [] => []
  | (amb, req) :: rest =>
      match guard amb req w with
      | (Return req', w') => (req', w') :: serve rest w'
      | (Throw _, _) => []
      end
  end.

(** The [count] the cache holds for an address, 0 when it holds none. *)
Definition rateCount (w : World) (addr : string) : Z :=
  match ipCache w !! addr with
  | Some e => count e
  | None => 0
  end.

(** The value a call of [isProxyOrVPN] resolves to. *)
Definition resolved (r : Result bool * World) : bool :=
  match fst r with
  | Return b => b
  | Throw _ => false
  end.

(** ** Vocabulary of the statements *)

(** What the [try] block of [isProxyOrVPN] leaves in [result]. *)
Definition serviceSays (answer : FetchResult) (addr : string) : bool :=
  match answer with
  | NetworkFailure | BadBody | Body JNull => false
  | Body data =>
      let info := Js.getProp data addr in
      Js.isStr (Js.optChain info "proxy") "yes"
      || Js.isStr (Js.optChain info "type") "VPN"
      || Js.isStr (Js.optChain info "type") "Hosting"
  end.

(** The verdict [guard] leaves on a request. *)
Definition verdict (req : Request) : bool * string :=
  (suspicious req, suspiciousReason req).

(** The reason of the first check of a list whose condition holds, with
    [true]; [false] and the empty reason, which is how the code writes
    "none", when no condition holds. *)
Definition firstMatch (checks : list (bool * string)) : bool * string :=
  match List.find fst checks with
  | Some (_, reason) => (true, reason)
  | None => (false, "")
  end.

(** The tag each check passes to [logFlag]. *)
Definition tagOf (reason : string) : string :=
  if String.eqb reason "bot" then "BOT->WHITE"
  else if String.eqb reason "vpn_proxy" then "VPN/PROXY->WHITE"
  else if String.eqb reason "emulator" then "EMULATOR->WHITE"
  else if String.eqb reason "rate_limit" then "RATE_LIMIT->WHITE"
  else "".

(** The conditions of the two checks that read the user agent only. *)
Definition botCondition (req : Request) : bool :=
  looksLikeBot (JsString.toLowerCase (userAgentOf req)).

Definition emulatorCondition (req : Request) : bool :=
  looksLikeEmulator (JsString.toLowerCase (userAgentOf req)).

(** The condition of the second check: what the lookup of the client
    address resolves to in the world the request finds. *)
Definition proxyCondition (amb : Ambient) (req : Request) (w : World) : bool :=
  resolved (isProxyOrVPN amb (detectClientIp req) w).

(** The lines [guard] added to the log file between two worlds. *)
Definition logged (before after : World) : list LogLine :=
  skipn (length (blockedLog before)) (blockedLog after).

(** What holds of every entry between two requests: the lookup has left
    its answer, the request that made or touched the entry was counted, and
    the entry of the empty address, which no lookup ever writes, says
    "no proxy". *)
Definition entryOk (addr : string) (e : Entry) : Prop :=
  is_Some (isProxy e) /\ 1 <= count e
  /\ (JsString.isEmpty addr = true -> isProxy e = Some false).

Definition cacheOk (w : World) : Prop :=
  forall addr e, ipCache w !! addr = Some e -> entryOk addr e.

(** The entry [guard] leaves for the address of the request, from the one
    it found. *)
Definition entryAfter (amb : Ambient) (addr : string) (found : option Entry)
    : Entry :=
  match found with
  | Some e => touch (nowGuard amb) e
  | None =>
      {| isProxy := Some (if JsString.isEmpty addr then false
                          else serviceSays (proxycheck amb) addr);
         last := nowGuard amb;
         count := 1 |}
  end.

(** The four checks of one request, in the order of the source, each with
    its reason; [after] is the world [guard] leaves, where the fourth check
    finds the count it compares with 5. *)
Definition checksOf (amb : Ambient) (req : Request) (before after : World)
    : list (bool * string) :=
  [ (botCondition req, "bot");
    (proxyCondition amb req before, "vpn_proxy");
    (emulatorCondition req, "emulator");
    (rateCount after (detectClientIp req) >? 5, "rate_limit") ].

(** The line a check writes for a request. *)
Definition flagLine (amb : Ambient) (req : Request) (reason : string)
    : LogLine :=
  {| stamp := isoLog amb; tag := tagOf reason;
     logIp := detectClientIp req; logUa := userAgentOf req |}.

(** "Every check whose condition is true writes a line with its own tag,
    whatever the checks before it did", as a statement about all runs. *)
Definition everyMatchIsLogged : Prop :=
  forall amb req w req' w' cond reason,
    guard amb req w = (Return req', w') ->
    In (cond, reason) (checksOf amb req w w') ->
    cond = true ->
    exists line, In line (logged w w') /\ tag line = tagOf reason.

(** Each request reads the clock less than 2000 ms after the one before. *)
Fixpoint burst (events : list (Ambient * Request)) : Prop :=
  match events with
  | first :: (second :: _) as rest =>
      nowGuard (fst second) - nowGuard (fst first) < 2000 /\ burst rest
  | _ => True
  end.

(** All requests resolve to one client address. *)
Definition allFrom (addr : string) (events : list (Ambient * Request)) : Prop :=
  Forall (fun ev => detectClientIp (snd ev) = addr) events.

(** The world after a list of requests. *)
Fixpoint worldAfter (events : list (Ambient * Request)) (w : World) : World :=
  match events with
  | [] => w
  | (amb, req) :: rest =>
      match guard amb req w with
      | (Return _, w') => worldAfter rest w'
      | (Throw _, w') => w'
      end
  end.

(** "The count is reset to 1 only when the gap exceeds 2000 ms and is
    incremented otherwise", as a statement about all runs that find an
    entry for the address. *)
Definition resetsOnlyBeyondWindow : Prop :=
  forall amb req w req' w' e,
    reachable w ->
    guard amb req w = (Return req', w') ->
    ipCache w !! detectClientIp req = Some e ->
    rateCount w' (detectClientIp req) =
      (if nowGuard amb - last e >? 2000 then 1 else count e + 1).

(** The lookup called again and again for one address, each call meeting
    its own outside; the results in order and the world at the end. *)
Fixpoint lookups (ambs : list Ambient) (addr : string) (w : World)
    : list (Result bool) * World :=
  match ambs with
  | [] => ([], w)
  | amb :: rest =>
      let (r, w') := isProxyOrVPN amb addr w in
      let (rs, w'') := lookups rest addr w' in
      (r :: rs, w'')
  end.

(** The service fails: no connection, a body that is not JSON, or the JSON
    [null], on which [data[ip]] throws. *)
Definition lookupFails (answer : FetchResult) : Prop :=
  answer = NetworkFailure \/ answer = BadBody \/ answer = Body JNull.

(** The first element of a forwarding chain that is not empty once
    trimmed. *)
Definition firstNonEmpty (xff : string) : option string :=
  List.find JsString.truthy (map JsString.trim (JsString.split "," xff)).

(** "For a chain of several elements the resolved address is the first
    element that is not empty after trimming, normalized", as a statement
    about all requests. *)
Definition resolvesToFirstNonEmpty : Prop :=
  forall req xff element,
    headers req !! "x-forwarded-for" = Some xff ->
    (1 < length (JsString.split "," xff))%nat ->
    firstNonEmpty xff = Some element ->
    detectClientIp req = normalizeIp element.

(** ** Sample requests *)

(** A request with the given headers, resolved by express to [addr]. *)
Definition requestWith (hs : list (string * string)) (addr : option string)
    : Request :=
  {| headers := list_to_map hs; ip := addr; socket := None;
     suspicious := false; suspiciousReason := "" |}.

(** The service reporting 203.0.113.7 as a VPN exit, at the given times. *)
Definition flaggedAt (tLookup tGuard : Z) : Ambient :=
  {| proxycheck :=
       Body (JObj [ ("status", JStr "ok");
                    ("203.0.113.7",
                     JObj [("proxy", JStr "yes"); ("type", JStr "VPN")]) ]);
     nowLookup := tLookup; nowGuard := tGuard;
     isoLog := "2024-05-01T10:00:00.000Z" |}.

(** The service reporting nothing about the address, at the given times. *)
Definition cleanAt (tLookup tGuard : Z) : Ambient :=
  {| proxycheck := Body (JObj [("status", JStr "ok")]);
     nowLookup := tLookup; nowGuard := tGuard;
     isoLog := "2024-05-01T10:00:00.000Z" |}.

(** The service out of reach. *)
Definition downAt (tLookup tGuard : Z) : Ambient :=
  {| proxycheck := NetworkFailure;
     nowLookup := tLookup; nowGuard := tGuard;
     isoLog := "2024-05-01T10:00:00.000Z" |}.

Definition curlRequest : Request :=
  requestWith [ ("user-agent", "curl/8.0");
                ("x-forwarded-for", "203.0.113.7") ]
              (Some "203.0.113.7").

Definition browserRequest : Request :=
  requestWith [ ("user-agent", "Mozilla/5.0 (Windows NT 10.0; Win64; x64)");
                ("x-forwarded-for", "203.0.113.7") ]
              (Some "203.0.113.7").

(** Six requests of a browser, 300 ms apart. *)
Definition sixQuickRequests : list (Ambient * Request) :=
  [ (cleanAt 1000 1001, browserRequest);
    (cleanAt 1300 1301, browserRequest);
    (cleanAt 1600 1601, browserRequest);
    (cleanAt 1900 1901, browserRequest);
    (cleanAt 2200 2201, browserRequest);
    (cleanAt 2500 2501, browserRequest) ].

(** Two requests of a browser, 500 ms apart. *)
Definition twoRequests : list (Ambient * Request) :=
  [ (cleanAt 1000 1001, browserRequest);
    (cleanAt 1500 1501, browserRequest) ].

Definition TAB : string := String (ascii_of_N 9) EmptyString.

(** A chain whose first two elements are blank.  Under [trust proxy]
    express resolves [req.ip] to the left-most element of the chain as its
    own parser cuts it, and that parser strips spaces only: here a TAB. *)
Definition blankHeadRequest : Request :=
  requestWith [ ("user-agent", "Mozilla/5.0 (Windows NT 10.0; Win64; x64)");
                ("x-forwarded-for", "," +:+ TAB +:+ ", 203.0.113.7") ]
              (Some TAB).

Definition chainRequest : Request :=
  requestWith [ ("user-agent", "Mozilla/5.0 (Windows NT 10.0; Win64; x64)");
                ("x-forwarded-for", " ::ffff:203.0.113.7 , 10.0.0.1") ]
              (Some "10.0.0.9").

Definition myBotRequest : Request :=
  mark (requestWith [("user-agent", "MyBot/1.0")] (Some "203.0.113.7")) "bot".

Definition noEnv : Env := {| WHITE_US_IP := None; WHITE_UA_MODE := None |}.

(** The upstream answering the requested URL with the given body. *)
Definition page (site : Site) (html : string) : option Response :=
  Some {| url := requestedUrl site; text := Some html |}.

(** ** The main endpoint: the request sent upstream *)

(** [parts.join(sep)]. *)
Fixpoint join (sep : string) (parts : list string) : string :=
  match parts with
  | [] => ""
  | [p] => p
  | p :: rest => p +:+ sep +:+ join sep rest
  end.

(** [String(incomingXFF).split(",").map((p) => p.trim()).filter(Boolean)],
    [incomingXFF] being [req.headers["x-forwarded-for"] || ""]. *)
Definition incomingParts (req : Request) : list string :=
  let incomingXFF := orElse (headers req !! "x-forwarded-for") "" in
  List.filter JsString.truthy
    (map JsString.trim (JsString.split "," incomingXFF)).

(** [[first, ...incoming.filter((ip) => ip !== first && ip !== "unknown")]
    .filter(Boolean)]. *)
Definition chainWith (first : string) (incoming : list string) : list string :=
  List.filter JsString.truthy
    (first ::
       List.filter
         (fun addr => negb (String.eqb addr first)
                      && negb (String.eqb addr "unknown"))
         incoming).

Definition outgoingParts (env : Env) (req : Request) : list string :=
  chainWith (clientIpToSend env req) (incomingParts req).

Definition outgoingXFF (env : Env) (req : Request) : string :=
  join ", " (outgoingParts env req).

(** What express knows of the connection besides the headers:
    [req.protocol] and [req.secure]. *)
Record Carrier := {
  protocol : string;
  secure : bool
}.

(** The correlation id; [fresh] is what [genReqId()] would return. *)
Definition reqIdOf (fresh : string) (req : Request) : string :=
  orElse (headers req !! "x-req-id")
    (orElse (headers req !! "x-request-id")
       (orElse (headers req !! "x-correlation-id") fresh)).

Definition forwardedProto (carrier : Carrier) (req : Request) : string :=
  orElse (headers req !! "x-forwarded-proto")
    (orElse (Some (protocol carrier))
       (if secure carrier then "https" else "http")).

Definition forwardedHost (req : Request) : string :=
  orElse (headers req !! "x-forwarded-host")
    (orElse (headers req !! "host") "").

(** The object [fetchHeaders] of [index.js], property by property. *)
Definition fetchHeaders (env : Env) (carrier : Carrier) (fresh : string)
    (req : Request) : list (string * string) :=
  let clientIp := clientIpToSend env req in
  [ ("User-Agent", uaToSend env req);
    ("Accept-Language",
     orElse (headers req !! "accept-language") "en-US,en;q=0.9");
    ("Accept", orElse (headers req !! "accept") "*/*");
    ("X-Forwarded-For", outgoingXFF env req);
    ("CF-Connecting-IP", clientIp);
    ("True-Client-IP", clientIp);
    ("X-Real-IP", clientIp);
    ("X-Forwarded-Proto", forwardedProto carrier req);
    ("X-Forwarded-Host", forwardedHost req);
    ("X-Req-Id", reqIdOf fresh req) ].

(** The object [fetchHeaders] of the older variant, which knows no
    verdict. *)
Definition fetchHeadersOld (carrier : Carrier) (fresh : string)
    (req : Request) : list (string * string) :=
  let clientIp := detectClientIp req in
  [ ("User-Agent", userAgentOf req);
    ("Accept-Language",
     orElse (headers req !! "accept-language") "en-US,en;q=0.9");
    ("Accept", orElse (headers req !! "accept") "*/*");
    ("X-Forwarded-For", join ", " (chainWith clientIp (incomingParts req)));
    ("X-Real-IP", clientIp);
    ("X-Forwarded-Proto", forwardedProto carrier req);
    ("X-Forwarded-Host", forwardedHost req);
    ("X-Req-Id", reqIdOf fresh req) ].

(** The upstream, as the server meets it: from the headers of a request
    to what [fetch] resolves to, [None] when it rejects. *)
Definition Upstream : Type := list (string * string) -> option Response.

(** The handler of [GET /] in [index.js], [guard] having run. *)
Definition mainEndpoint (env : Env) (site : Site) (carrier : Carrier)
    (fresh : string) (upstream : Upstream) (req : Request) : Payload :=
  answer site (upstream (fetchHeaders env carrier fresh req)).

(** The handler of [GET /] in the older variant. *)
Definition mainEndpointOld (site : Site) (carrier : Carrier)
    (fresh : string) (upstream : Upstream) (req : Request) : OldReply :=
  answerOld site (upstream (fetchHeadersOld carrier fresh req)).

(** [app.get("/", guard, handler)]: the route of [index.js]. *)
Definition route (amb : Ambient) (env : Env) (site : Site)
    (carrier : Carrier) (fresh : string) (upstream : Upstream)
    (req : Request) : M Payload :=
  req' <- guard amb req ;;
  ret (mainEndpoint env site carrier fresh upstream req').

(** The value of a header in a list of headers sent. *)
Fixpoint sent (name : string) (hs : list (string * string)) : option string :=
  match hs with
  | [] => None
  | (k, v) :: rest => if String.eqb k name then Some v else sent name rest
  end.

(** ** More sample requests *)

Definition otherRequest : Request :=
  requestWith [ ("user-agent", "Mozilla/5.0 (Macintosh; Intel Mac OS X 14_4)");
                ("x-forwarded-for", "198.51.100.9") ]
              (Some "198.51.100.9").

(** The world after one browser request from 203.0.113.7, which the
    service reports as a VPN exit. *)
Definition flaggedWorld : World :=
  worldAfter [(flaggedAt 1000 1001, browserRequest)] emptyWorld.

(** The addresses a list of requests resolves to. *)
Definition addressesOf (events : list (Ambient * Request)) : list string :=
  map (fun ev => detectClientIp (snd ev)) events.

(** How many of a list of requests resolve to an address. *)
Definition requestsFrom (addr : string) (events : list (Ambient * Request))
    : nat :=
  length (List.filter (String.eqb addr) (addressesOf events)).

(** A character occurs in a string. *)
Fixpoint hasChar (c : ascii) (s : string) : bool :=
  match s with
  | EmptyString => false
  | String d r => Ascii.eqb d c || hasChar c r
  end.

(** An expression without [\b]. *)
Fixpoint noBoundary (r : Regex.regex) : bool :=
  match r with
  | Regex.WordB => false
  | Regex.Cat r1 r2 | Regex.Alt r1 r2 => noBoundary r1 && noBoundary r2
  | Regex.Opt r1 => noBoundary r1
  | _ => true
  end.

(** ** Requests that overlap

    [guard] gives way to other requests in one place: inside
    [isProxyOrVPN], at [await fetch] and [await resp.json()], which are
    reached only where no answer is memoized.  A request that overlaps
    another one runs what lies before that place, waits, and later runs
    what lies after it; what it read of the cache before waiting, the
    constant [cached], is what it writes back after. *)

(** What [await fetch(...)] and [resp.json()] hand over once the service
    has answered; the request itself was recorded when it was sent. *)
Definition respond (amb : Ambient) : M (option Json) :=
  match proxycheck amb with
  | NetworkFailure => throw FetchError
  | BadBody => ret None
  | Body data => ret (Some data)
  end.

(** [isProxyOrVPN] up to [await fetch]: it has returned, or it has sent its
    request and holds [cached]. *)
Inductive Lookup : Type :=
| Answered (flag : bool)
| Asked (cached : option Entry).

Definition lookupBegin (ip : string) : M Lookup :=
  if JsString.isEmpty ip then ret (Answered false)
  else
    cached <- cacheGet ip ;;
    match cached ≫= isProxy with
    | Some flag => ret (Answered flag)
    | None =>
        fun w => (Return (Asked cached), recordFetch (proxycheckUrl ip) w)
    end.

(** [isProxyOrVPN] from the answer of the service on. *)
Definition lookupEnd (amb : Ambient) (ip : string) (cached : option Entry)
    : M bool :=
  result <-
    tryCatch
      (resp <- respond amb ;;
       data <- json resp ;;
       info <- member data ip ;;
       ret (Js.isStr (Js.optChain info "proxy") "yes"
            || Js.isStr (Js.optChain info "type") "VPN"
            || Js.isStr (Js.optChain info "type") "Hosting"))
      (fun _ => ret false) ;;
  cacheSet ip {| isProxy := Some result;
                 last := nowLookup amb;
                 count := match cached with
                          | Some e => count e
                          | None => 0
                          end |} ;;
  ret result.

(** [guard] from the value of [isProxy] on: the checks 2 to 4. *)
Definition guardRest (amb : Ambient) (req : Request) (isProxy : bool)
    : M Request :=
  let ip := detectClientIp req in
  let uaRaw := userAgentOf req in
  let ua := JsString.toLowerCase uaRaw in
  req <- (if isProxy && negb (suspicious req)
          then (let req := mark req "vpn_proxy" in
                logFlag amb "VPN/PROXY->WHITE" ip uaRaw ;; ret req)
          else ret req) ;;
  req <- (if looksLikeEmulator ua && negb (suspicious req)
          then (let req := mark req "emulator" in
                logFlag amb "EMULATOR->WHITE" ip uaRaw ;; ret req)
          else ret req) ;;
  let now := nowGuard amb in
  found <- cacheGet ip ;;
  let cached := touch now (default freshEntry found) in
  cacheSet ip cached ;;
  req <- (if (count cached >? 5) && negb (suspicious req)
          then (let req := mark req "rate_limit" in
                logFlag amb "RATE_LIMIT->WHITE" ip uaRaw ;; ret req)
          else ret req) ;;
  ret req.

(** A request waiting for the service: the request as the bot check left
    it, and the [cached] its lookup holds. *)
Record Suspended := {
  waiting : Request;
  snapshot : option Entry
}.

(** [guard] up to the place where it may wait: it has finished, or it
    waits. *)
Definition guardBegin (amb : Ambient) (req0 : Request)
    : M (Request + Suspended) :=
  let ip := detectClientIp req0 in
  let uaRaw := userAgentOf req0 in
  let ua := JsString.toLowerCase uaRaw in
  let req := unmark req0 in
  req <- (if looksLikeBot ua
          then (let req := mark req "bot" in
                logFlag amb "BOT->WHITE" ip uaRaw ;; ret req)
          else ret req) ;;
  started <- lookupBegin ip ;;
  match started with
  | Answered flag => done <- guardRest amb req flag ;; ret (inl done)
  | Asked cached => ret (inr {| waiting := req; snapshot := cached |})
  end.

(** [guard] of a waiting request, once the service has answered. *)
Definition guardEnd (amb : Ambient) (s : Suspended) : M Request :=
  isProxy <- lookupEnd amb (detectClientIp (waiting s)) (snapshot s) ;;
  guardRest amb (waiting s) isProxy.

(** All requests arrive before the service answers any of them. *)
Fixpoint beginAll (events : list (Ambient * Request)) (w : World)
    : list (Ambient * (Request + Suspended)) * World :=
  match events with
  | [] => ([], w)
  | (amb, req) :: rest =>
      match guardBegin amb req w with
      | (Return started, w') =>
          let (others, w'') := beginAll rest w' in
          ((amb, started) :: others, w'')
      | (Throw _, w') => ([], w')
      end
  end.

(** The answers then come in, in the order of the requests. *)
Fixpoint endAll (pending : list (Ambient * (Request + Suspended)))
    (w : World) : list Request * World :=
  match pending with
  | [] => ([], w)
  | (_, inl done) :: rest =>
      let (others, w') := endAll rest w in (done :: others, w')
  | (amb, inr s) :: rest =>
      match guardEnd amb s w with
      | (Return done, w') =>
          let (others, w'') := endAll rest w' in (done :: others, w'')
      | (Throw _, w') => ([], w')
      end
  end.

Definition overlapped (events : list (Ambient * Request)) (w : World)
    : list Request * World :=
  let (pending, w') := beginAll events w in endAll pending w'.

(** ** The burst as first described *)

(** Each request reads the clock at most 2000 ms after the one before. *)
Fixpoint burstWithin (events : list (Ambient * Request)) : Prop :=
  match events with
  | first :: (second :: _) as rest =>
      nowGuard (fst second) - nowGuard (fst first) <= 2000
      /\ burstWithin rest
  | _ => True
  end.

(** "Requests of one address, each within 2000 ms of the one before: the
    count grows strictly from each to the next, and the sixth is flagged
    [rate_limit] unless an earlier check flagged it", as a statement about
    all runs. *)
Definition withinBurstIsLimited : Prop :=
  forall w events addr,
    reachable w ->
    allFrom addr events ->
    burstWithin events ->
    (forall i q1 w1 q2 w2,
        serve events w !! i = Some (q1, w1) ->
        serve events w !! S i = Some (q2, w2) ->
        rateCount w1 addr < rateCount w2 addr)
    /\ (forall q6 w6,
          serve events w !! 5%nat = Some (q6, w6) ->
          5 < rateCount w6 addr
          /\ (suspiciousReason q6 <> "bot" ->
              suspiciousReason q6 <> "vpn_proxy" ->
              suspiciousReason q6 <> "emulator" ->
              verdict q6 = (true, "rate_limit"))).

(** Six requests of a browser, exactly 2000 ms apart. *)
Definition sixSpacedRequests : list (Ambient * Request) :=
  [ (cleanAt 1000 1001, browserRequest);
    (cleanAt 3000 3001, browserRequest);
    (cleanAt 5000 5001, browserRequest);
    (cleanAt 7000 7001, browserRequest);
    (cleanAt 9000 9001, browserRequest);
    (cleanAt 11000 11001, browserRequest) ].

(** One of the three correlation headers carries an id. *)
Definition carriesCorrelationId (req : Request) : Prop :=
  exists name id,
    In name ["x-req-id"; "x-request-id"; "x-correlation-id"]
    /\ headers req !! name = Some id
    /\ id <> "".

(** * Properties *)

(** ** The primitives on sample inputs *)

Example toLowerCase_sample :
  JsString.toLowerCase "Mozilla/5.0 (X11; Linux x86_64) HeadlessChrome"
  = "mozilla/5.0 (x11; linux x86_64) headlesschrome".
Proof. reflexivity. Qed.

Example trim_sample : JsString.trim "  10.0.0.1 " = "10.0.0.1".
Proof. reflexivity. Qed.

Example split_sample :
  JsString.split "," "a, b,,c" = ["a"; " b"; ""; "c"]
  /\ JsString.split "," "" = [""].
Proof. split; reflexivity. Qed.

Example indexOf_sample :
  JsString.indexOf "src=" "<img src='a'> <img src='b'>" 6 = 19
  /\ JsString.indexOf "src=" "<img alt='a'>" 0 = -1.
Proof. split; reflexivity. Qed.

(** A negative end counts as 0 and the two ends change places. *)
Example substring_sample :
  JsString.substring "abcdef" 2 4 = "cd"
  /\ JsString.substring "abcdef" 4 (-1) = "abcd".
Proof. split; reflexivity. Qed.

Example normalizeIp_sample :
  normalizeIp "::ffff:192.0.2.10" = "192.0.2.10"
  /\ normalizeIp "2001:db8::1" = "2001:db8::1".
Proof. split; reflexivity. Qed.

Example word_boundary_sample :
  let emulator :=
    Regex.ci (Regex.Cat Regex.WordB
                (Regex.Cat (Regex.lit "emulator") Regex.WordB)) in
  Regex.test emulator "android emulator build" = true
  /\ Regex.test emulator "emulators" = false
  /\ Regex.test emulator "x-EMULATOR" = true.
Proof. repeat split; reflexivity. Qed.

Example bot_samples :
  looksLikeBot "" = true
  /\ looksLikeBot "googlebot/2.1 (+http://www.google.com/bot.html)" = true
  /\ looksLikeBot "renderbot" = true
  /\ looksLikeBot "mozilla/5.0 (windows nt 10.0; win64; x64)" = false.
Proof. repeat split; reflexivity. Qed.

Example emulator_samples :
  looksLikeEmulator "mozilla/5.0 (linux; android 13; sdk_gphone64_x86_64)" = true
  /\ looksLikeEmulator "mozilla/5.0 (linux; android 13; x86_64)" = true
  /\ looksLikeEmulator "mozilla/5.0 (linux; android 13; pixel 7; x86_64)" = false
  /\ looksLikeEmulator "mozilla/5.0 (x11; linux x86_64)" = false.
Proof. repeat split; reflexivity. Qed.

(** The page of the description: an image with a relative source. *)
Example relative_image_sample :
  answer defaultSite (page defaultSite "<img id='x' src='/img/pic.png'>")
  = {| image_url :=
         "https://origin.skytalonsacademy.lol/lander/skytalons/img/pic.png";
       site_url := "" |}.
Proof. reflexivity. Qed.

Example redirect_sample :
  answer defaultSite (Some {| url := "https://example.com/x"; text := None |})
  = {| image_url := ""; site_url := "https://example.com/x" |}.
Proof. reflexivity. Qed.

(** ** The reputation lookup, case by case *)

Section Lookup.
Variable amb : Ambient.
Variable addr : string.
Variable w : World.

Lemma lookup_empty_address :
  JsString.isEmpty addr = true ->
  isProxyOrVPN amb addr w = (Return false, w).
Proof. intros E. unfold isProxyOrVPN. now rewrite E. Qed.

Lemma lookup_memoized flag :
  JsString.isEmpty addr = false ->
  ipCache w !! addr ≫= isProxy = Some flag ->
  isProxyOrVPN amb addr w = (Return flag, w).
Proof.
  intros E H. unfold isProxyOrVPN, bind, cacheGet. rewrite E.
  cbn. now rewrite H.
Qed.

(** Without a memoized answer the service is asked once, the answer is a
    boolean whatever the service did, and the entry is written. *)
Lemma lookup_asks :
  JsString.isEmpty addr = false ->
  ipCache w !! addr ≫= isProxy = None ->
  isProxyOrVPN amb addr w =
    (Return (serviceSays (proxycheck amb) addr),
     setCache
       (<[addr := {| isProxy := Some (serviceSays (proxycheck amb) addr);
                     last := nowLookup amb;
                     count := from_option count 0 (ipCache w !! addr) |}]>
          (ipCache w))
       (recordFetch (proxycheckUrl addr) w)).
Proof.
  intros E H. unfold isProxyOrVPN, bind, cacheGet. rewrite E.
  cbn. rewrite H.
  unfold tryCatch, bind, fetch, json, member, cacheSet, ret, throw.
  destruct (proxycheck amb) as [ | | data]; cbn;
    try destruct data; cbn;
    destruct (ipCache w !! addr); reflexivity.
Qed.

(** The lookup never throws, and it leaves the log file alone. *)
Lemma lookup_returns :
  exists flag w',
    isProxyOrVPN amb addr w = (Return flag, w')
    /\ blockedLog w' = blockedLog w.
Proof.
  destruct (JsString.isEmpty addr) eqn:E.
  - exists false, w. split; [now apply lookup_empty_address | reflexivity].
  - destruct (ipCache w !! addr ≫= isProxy) as [flag|] eqn:H.
    + exists flag, w. split; [now apply lookup_memoized | reflexivity].
    + eexists _, _. split; [now apply lookup_asks | reflexivity].
Qed.

End Lookup.

(** The lookup does not read the log file: a line written before it only
    shows up in the world it leaves. *)
Lemma lookup_after_log amb addr line w flag w' :
  isProxyOrVPN amb addr w = (Return flag, w') ->
  isProxyOrVPN amb addr (appendLog line w) = (Return flag, appendLog line w').
Proof.
  destruct (JsString.isEmpty addr) eqn:E.
  - rewrite !lookup_empty_address by assumption. now intros [= <- <-].
  - destruct (ipCache w !! addr ≫= isProxy) as [memo|] eqn:H.
    + rewrite (lookup_memoized amb addr w memo E H).
      intros [= <- <-]. now apply lookup_memoized.
    + rewrite (lookup_asks amb addr w E H). intros [= <- <-].
      now rewrite (lookup_asks amb addr (appendLog line w) E H).
Qed.

(** ** One run of [guard] in closed form *)

#[local] Arguments touch _ _ : simpl never.

Lemma guard_run amb req w flag w1 :
  isProxyOrVPN amb (detectClientIp req) w = (Return flag, w1) ->
  let addr := detectClientIp req in
  let cached := touch (nowGuard amb) (default freshEntry (ipCache w1 !! addr)) in
  let v := firstMatch [ (botCondition req, "bot"); (flag, "vpn_proxy");
                        (emulatorCondition req, "emulator");
                        (count cached >? 5, "rate_limit") ] in
  guard amb req w =
    (Return {| headers := headers req; ip := ip req; socket := socket req;
               suspicious := fst v; suspiciousReason := snd v |},
     {| ipCache := <[addr := cached]> (ipCache w1);
        blockedLog :=
          blockedLog w ++
            (if fst v
             then [ {| stamp := isoLog amb; tag := tagOf (snd v);
                       logIp := addr; logUa := userAgentOf req |} ]
             else []);
        fetched := fetched w1 |}).
Proof.
  intros Hrun addr cached v.
  assert (blockedLog w1 = blockedLog w) as Hlog.
  { destruct (lookup_returns amb (detectClientIp req) w)
      as (f & w2 & Hrun2 & Hl). rewrite Hrun in Hrun2.
    now injection Hrun2 as -> ->. }
  subst v cached addr. unfold guard, botCondition, emulatorCondition.
  set (ua := JsString.toLowerCase (userAgentOf req)).
  set (addr := detectClientIp req) in *.
  unfold bind at 1.
  destruct (looksLikeBot ua) eqn:Hbot.
  - unfold bind at 1, logFlag at 1, ret at 1. cbn [fst snd].
    unfold bind at 1.
    rewrite (lookup_after_log _ _ _ _ _ _ Hrun).
    unfold bind, ret, logFlag, cacheGet, cacheSet, setCache, appendLog.
    cbn. rewrite andb_false_r. cbn.
    destruct (looksLikeEmulator ua); cbn; rewrite ?andb_false_r; cbn.
    all: rewrite Hlog; reflexivity.
  - unfold ret at 1. unfold bind at 1. rewrite Hrun.
    unfold bind, ret, logFlag, cacheGet, cacheSet, setCache, appendLog.
    cbn.
    destruct flag, (looksLikeEmulator ua); cbn;
      rewrite ?andb_false_r, ?andb_true_r; cbn;
      try (rewrite Hlog; reflexivity).
    destruct (count (touch (nowGuard amb)
                (default freshEntry (ipCache w1 !! addr))) >? 5);
      cbn; rewrite Hlog, ?app_nil_r; reflexivity.
Qed.

(** ** The cache across one request *)

Lemma touch_fresh_count now stamp flag :
  touch now {| isProxy := flag; last := stamp; count := 0 |}
  = {| isProxy := flag; last := now; count := 1 |}.
Proof. unfold touch. cbn. now destruct (now - stamp <? 2000). Qed.

Lemma guard_cache amb req w req' w' :
  cacheOk w ->
  guard amb req w = (Return req', w') ->
  ipCache w' =
    <[detectClientIp req :=
        entryAfter amb (detectClientIp req) (ipCache w !! detectClientIp req)]>
      (ipCache w).
Proof.
  intros Hok Hg. set (addr := detectClientIp req) in *.
  destruct (JsString.isEmpty addr) eqn:E.
  - pose proof (lookup_empty_address amb addr w E) as Hrun.
    rewrite (guard_run _ _ _ _ _ Hrun) in Hg. injection Hg as _ <-.
    cbn. fold addr. destruct (ipCache w !! addr) as [e|]; cbn; [reflexivity|].
    f_equal. unfold freshEntry. rewrite touch_fresh_count. now rewrite E.
  - destruct (ipCache w !! addr) as [e|] eqn:He.
    + destruct (Hok _ _ He) as ([flag Hflag] & _ & _).
      assert (ipCache w !! addr ≫= isProxy = Some flag) as Hmemo
        by (rewrite He; exact Hflag).
      pose proof (lookup_memoized amb addr w flag E Hmemo) as Hrun.
      rewrite (guard_run _ _ _ _ _ Hrun) in Hg. injection Hg as _ <-.
      cbn. fold addr. now rewrite He.
    + assert (ipCache w !! addr ≫= isProxy = None) as Hmiss by now rewrite He.
      pose proof (lookup_asks amb addr w E Hmiss) as Hrun.
      rewrite (guard_run _ _ _ _ _ Hrun) in Hg. injection Hg as _ <-.
      cbn. fold addr. rewrite lookup_insert_eq, insert_insert_eq, He. cbn.
      now rewrite touch_fresh_count, E.
Qed.

Lemma entryAfter_ok amb addr found :
  (forall e, found = Some e -> entryOk addr e) ->
  entryOk addr (entryAfter amb addr found).
Proof.
  intros H. destruct found as [e|]; cbn.
  - destruct (H e eq_refl) as (Hp & Hc & He).
    unfold entryOk, touch. cbn. repeat split; try assumption.
    destruct (nowGuard amb - last e <? 2000); lia.
  - unfold entryOk. cbn. repeat split; [eauto | lia |].
    now intros ->.
Qed.

Lemma guard_preserves amb req w req' w' :
  cacheOk w ->
  guard amb req w = (Return req', w') ->
  cacheOk w'.
Proof.
  intros Hok Hg addr e. rewrite (guard_cache _ _ _ _ _ Hok Hg).
  rewrite lookup_insert. case_decide as Hk.
  - subst addr. intros [= <-]. apply entryAfter_ok. intros e0. apply Hok.
  - apply Hok.
Qed.

Lemma reachable_ok w : reachable w -> cacheOk w.
Proof.
  induction 1 as [| amb req w req' w' _ IH Hg].
  - intros addr e. cbn. now rewrite lookup_empty.
  - exact (guard_preserves _ _ _ _ _ IH Hg).
Qed.

(** [guard] always reaches [next()]. *)
Lemma guard_returns amb req w :
  exists req' w', guard amb req w = (Return req', w').
Proof.
  destruct (lookup_returns amb (detectClientIp req) w) as (flag & w1 & Hrun & _).
  eexists _, _. exact (guard_run _ _ _ _ _ Hrun).
Qed.

(** ** The verdict and the log of one request *)

Lemma logged_app w lines c f :
  logged w {| ipCache := c; blockedLog := blockedLog w ++ lines;
              fetched := f |} = lines.
Proof. unfold logged. cbn. now rewrite drop_app_length. Qed.

Lemma guard_outcome amb req w :
  exists req' w',
    guard amb req w = (Return req', w')
    /\ verdict req' = firstMatch (checksOf amb req w w')
    /\ logged w w' =
         (if suspicious req'
          then [flagLine amb req (suspiciousReason req')] else []).
Proof.
  destruct (lookup_returns amb (detectClientIp req) w) as (flag & w1 & Hrun & _).
  pose proof (guard_run _ _ _ _ _ Hrun) as Hg. cbv zeta in Hg.
  eexists _, _. split; [exact Hg|].
  unfold checksOf, proxyCondition, resolved, rateCount, verdict.
  rewrite Hrun. cbn [fst snd ipCache suspicious suspiciousReason].
  rewrite lookup_insert_eq, logged_app.
  split; [now destruct (firstMatch _) | reflexivity].
Qed.

(** [firstMatch] is what its name says. *)
Lemma firstMatch_earliest before reason rest :
  Forall (fun c => fst c = false) before ->
  firstMatch (before ++ (true, reason) :: rest) = (true, reason).
Proof.
  unfold firstMatch. induction 1 as [| [c r] l Hc _ IH]; cbn; [reflexivity|].
  cbn in Hc. subst c. exact IH.
Qed.

Lemma firstMatch_none checks :
  Forall (fun c => fst c = false) checks ->
  firstMatch checks = (false, "").
Proof.
  unfold firstMatch. induction 1 as [| [c r] l Hc _ IH]; cbn; [reflexivity|].
  cbn in Hc. subst c. exact IH.
Qed.

(** C1. Every request comes out of [guard] with the reason of the first of
    the four checks, taken in the order bot, vpn_proxy, emulator,
    rate_limit, whose condition holds for it; with no condition holding it
    comes out not suspicious, the reason being the empty string the code
    uses for "none".  A check that matches after an earlier one therefore
    never replaces the reason. *)
Theorem guard_first_match amb req w :
  exists req' w',
    guard amb req w = (Return req', w')
    /\ verdict req' = firstMatch (checksOf amb req w w').
Proof.
  destruct (guard_outcome amb req w) as (req' & w' & Hg & Hv & _).
  now exists req', w'.
Qed.

(** C2, as amended. A request leaves exactly one line in the log when some
    check matches it, written by the first matching check and tagged with
    that check's tag, and no line when none matches: a check that matches
    after the verdict is set writes nothing. *)
Theorem guard_logs_first_match amb req w :
  exists req' w',
    guard amb req w = (Return req', w')
    /\ logged w w' =
         match firstMatch (checksOf amb req w w') with
         | (true, reason) => [flagLine amb req reason]
         | (false, _) => []
         end.
Proof.
  destruct (guard_outcome amb req w) as (req' & w' & Hg & Hv & Hl).
  exists req', w'. split; [exact Hg|].
  rewrite Hl, <- Hv. unfold verdict. now destruct (suspicious req').
Qed.

(** C2, as stated, fails: [curl/8.0] from an address the service reports
    as a VPN exit matches the bot check and the VPN/proxy check, and the
    log receives the bot line only. *)
Lemma every_match_logged_fails : ~ everyMatchIsLogged.
Proof.
  intros H.
  destruct (guard_returns (flaggedAt 1000 1001) curlRequest emptyWorld)
    as (req' & w' & Hg).
  destruct (H _ _ _ _ _ true "vpn_proxy" Hg) as (line & Hin & Htag).
  - right. left. f_equal.
  - reflexivity.
  - vm_compute in Hg. injection Hg as <- <-.
    vm_compute in Hin. destruct Hin as [<- | []]. discriminate Htag.
Qed.

(** ** Bursts of requests *)

Lemma guard_entry amb req w req' w' :
  cacheOk w ->
  guard amb req w = (Return req', w') ->
  ipCache w' !! detectClientIp req =
    Some (entryAfter amb (detectClientIp req) (ipCache w !! detectClientIp req)).
Proof.
  intros Hok Hg. rewrite (guard_cache _ _ _ _ _ Hok Hg).
  apply lookup_insert_eq.
Qed.

Lemma entryAfter_last amb addr found :
  last (entryAfter amb addr found) = nowGuard amb.
Proof. now destruct found. Qed.

Lemma serve_length events : forall w, length (serve events w) = length events.
Proof.
  induction events as [| [amb req] rest IH]; intros w; cbn; [reflexivity|].
  destruct (guard_returns amb req w) as (req' & w' & ->). cbn. now rewrite IH.
Qed.

(** The [i]-th outcome comes from running [guard] on the [i]-th request in
    the world the outcome before it left. *)
Lemma serve_nth events : forall w i q wi,
  cacheOk w ->
  serve events w !! i = Some (q, wi) ->
  exists amb req wprev,
    events !! i = Some (amb, req)
    /\ cacheOk wprev
    /\ guard amb req wprev = (Return q, wi)
    /\ match i with
       | O => wprev = w
       | S j => exists q', serve events w !! j = Some (q', wprev)
       end.
Proof.
  induction events as [| [amb req] rest IH]; intros w i q wi Hok; cbn;
    [now rewrite lookup_nil|].
  destruct (guard amb req w) as [[e|req'] w'] eqn:Hg; [now rewrite lookup_nil|].
  destruct i as [|i]; cbn.
  - intros [= <- <-]. now exists amb, req, w.
  - intros Hi.
    destruct (IH w' i q wi (guard_preserves _ _ _ _ _ Hok Hg) Hi)
      as (a & r & wprev & Hev & Hokp & Hrun & Hprev).
    exists a, r, wprev.
    split; [exact Hev|]. split; [exact Hokp|]. split; [exact Hrun|].
    destruct i as [|j]; cbn.
    + subst wprev. now exists req'.
    + exact Hprev.
Qed.

Lemma burst_nth events : forall i a1 r1 a2 r2,
  burst events ->
  events !! i = Some (a1, r1) ->
  events !! S i = Some (a2, r2) ->
  nowGuard a2 - nowGuard a1 < 2000.
Proof.
  induction events as [| ev1 rest IH]; intros i a1 r1 a2 r2 Hb H1 H2;
    [now rewrite lookup_nil in H1|].
  destruct rest as [| ev2 rest]; [discriminate H2|].
  destruct Hb as [Hgap Hb]. destruct i as [|i].
  - cbn in H1, H2. injection H1 as ->. injection H2 as ->. exact Hgap.
  - exact (IH i a1 r1 a2 r2 Hb H1 H2).
Qed.

(** Within a burst the count of the common address goes up by one from
    each request to the next. *)
Lemma burst_step w events addr i q1 w1 q2 w2 :
  cacheOk w ->
  allFrom addr events ->
  burst events ->
  serve events w !! i = Some (q1, w1) ->
  serve events w !! S i = Some (q2, w2) ->
  rateCount w2 addr = rateCount w1 addr + 1.
Proof.
  intros Hok Hall Hb H1 H2.
  destruct (serve_nth _ _ _ _ _ Hok H1) as (a1 & r1 & wp1 & He1 & Hok1 & Hg1 & _).
  destruct (serve_nth _ _ _ _ _ Hok H2)
    as (a2 & r2 & wp2 & He2 & Hok2 & Hg2 & (q' & Hprev)).
  rewrite H1 in Hprev. injection Hprev as <- <-.
  pose proof (burst_nth _ _ _ _ _ _ Hb He1 He2) as Hgap.
  unfold allFrom in Hall. rewrite Forall_forall in Hall.
  pose proof (Hall _ (list_elem_of_lookup_2 _ _ _ He1)) as Ha1.
  pose proof (Hall _ (list_elem_of_lookup_2 _ _ _ He2)) as Ha2.
  cbn in Ha1, Ha2.
  pose proof (guard_entry _ _ _ _ _ Hok1 Hg1) as E1.
  pose proof (guard_entry _ _ _ _ _ Hok2 Hg2) as E2.
  rewrite Ha1 in E1. rewrite Ha2, E1 in E2.
  unfold rateCount. rewrite E1, E2. cbn. unfold touch. cbn.
  rewrite entryAfter_last.
  destruct (Z.ltb_spec (nowGuard a2 - nowGuard a1) 2000); [reflexivity | lia].
Qed.

Lemma burst_counts w events addr :
  cacheOk w ->
  allFrom addr events ->
  burst events ->
  forall i q wi,
    serve events w !! i = Some (q, wi) ->
    Z.of_nat i + 1 <= rateCount wi addr.
Proof.
  intros Hok Hall Hb. induction i as [|i IH]; intros q wi Hi.
  - destruct (serve_nth _ _ _ _ _ Hok Hi) as (a & r & wp & He & Hokp & Hg & _).
    unfold allFrom in Hall. rewrite Forall_forall in Hall.
    pose proof (Hall _ (list_elem_of_lookup_2 _ _ _ He)) as Ha.
    cbn in Ha.
    pose proof (guard_entry _ _ _ _ _ Hokp Hg) as E. rewrite Ha in E.
    unfold rateCount. rewrite E.
    destruct (entryAfter_ok a addr (ipCache wp !! addr)) as (_ & Hc & _).
    + intros e. apply Hokp.
    + cbn. lia.
  - destruct (serve events w !! i) as [[q0 w0]|] eqn:H0.
    + rewrite (burst_step _ _ _ _ _ _ _ _ Hok Hall Hb H0 Hi).
      specialize (IH _ _ eq_refl). lia.
    + apply lookup_ge_None in H0. apply lookup_lt_Some in Hi. lia.
Qed.

Lemma reachable_serve events : forall w,
  reachable w -> reachable (worldAfter events w).
Proof.
  induction events as [| [amb req] rest IH]; intros w Hw; cbn; [exact Hw|].
  destruct (guard_returns amb req w) as (req' & w' & Hg). rewrite Hg.
  exact (IH w' (reach_guard _ _ _ _ _ Hw Hg)).
Qed.

(** C3, as amended. Requests of one client address, served one after the
    other (the [guard] of each has ended before the next arrives), each
    reading the clock less than 2000 ms after the one before, starting in
    any world the server can be in: all are served, the count of the
    address grows strictly from each to the next, and at the sixth it is
    above 5, so that the sixth comes out flagged [rate_limit] unless the
    bot, VPN/proxy or emulator check flagged it. *)
Theorem burst_is_rate_limited w events addr :
  reachable w ->
  allFrom addr events ->
  burst events ->
  length (serve events w) = length events
  /\ (forall i q1 w1 q2 w2,
        serve events w !! i = Some (q1, w1) ->
        serve events w !! S i = Some (q2, w2) ->
        rateCount w1 addr < rateCount w2 addr)
  /\ (forall q6 w6,
        serve events w !! 5%nat = Some (q6, w6) ->
        5 < rateCount w6 addr
        /\ (suspiciousReason q6 <> "bot" ->
            suspiciousReason q6 <> "vpn_proxy" ->
            suspiciousReason q6 <> "emulator" ->
            verdict q6 = (true, "rate_limit"))).
Proof.
  intros Hw Hall Hb. pose proof (reachable_ok _ Hw) as Hok.
  split; [apply serve_length|]. split.
  - intros i q1 w1 q2 w2 H1 H2.
    rewrite (burst_step _ _ _ _ _ _ _ _ Hok Hall Hb H1 H2). lia.
  - intros q6 w6 H6.
    pose proof (burst_counts _ _ _ Hok Hall Hb _ _ _ H6) as Hc.
    split; [lia|].
    destruct (serve_nth _ _ _ _ _ Hok H6) as (a & r & wp & He & _ & Hg & _).
    destruct (guard_outcome a r wp) as (q' & w' & Hg' & Hv & _).
    rewrite Hg in Hg'. injection Hg' as <- <-.
    unfold allFrom in Hall. rewrite Forall_forall in Hall.
    pose proof (Hall _ (list_elem_of_lookup_2 _ _ _ He)) as Ha. cbn in Ha.
    unfold checksOf in Hv. rewrite Ha in Hv.
    destruct (Z.gtb_spec (rateCount w6 addr) 5) as [_|]; [|lia].
    revert Hv. unfold verdict, firstMatch.
    destruct (botCondition r), (proxyCondition a r wp), (emulatorCondition r);
      cbn; intros [= Hs Hr] N1 N2 N3; try congruence.
Qed.

Lemma burst_is_rate_limited_witness :
  exists q6 w6,
    serve sixQuickRequests emptyWorld !! 5%nat = Some (q6, w6)
    /\ 5 < rateCount w6 "203.0.113.7"
    /\ verdict q6 = (true, "rate_limit").
Proof.
  destruct (burst_is_rate_limited emptyWorld sixQuickRequests "203.0.113.7")
    as (_ & _ & Hsix).
  - constructor.
  - repeat constructor.
  - cbn. lia.
  - destruct (serve sixQuickRequests emptyWorld !! 5%nat) as [[q6 w6]|] eqn:H5.
    + exists q6, w6. split; [reflexivity|].
      destruct (Hsix q6 w6 eq_refl) as [Hc Hv]. split; [exact Hc|].
      vm_compute in H5. injection H5 as <- <-.
      apply Hv; discriminate.
    + vm_compute in H5. discriminate H5.
Defined.

(** C3, as stated, fails: six requests exactly 2000 ms apart are each
    within 2000 ms of the one before, and each finds the window over: the
    count is 1 after every one of them, so it does not grow from the first
    to the second, and the sixth is not flagged. *)
Lemma within_burst_is_limited_fails : ~ withinBurstIsLimited.
Proof.
  intros H.
  destruct (H emptyWorld sixSpacedRequests "203.0.113.7") as [Hgrow _].
  - constructor.
  - repeat constructor.
  - cbn. lia.
  - destruct (serve sixSpacedRequests emptyWorld !! 0%nat)
      as [[q1 w1]|] eqn:H0; [|vm_compute in H0; discriminate H0].
    destruct (serve sixSpacedRequests emptyWorld !! 1%nat)
      as [[q2 w2]|] eqn:H1; [|vm_compute in H1; discriminate H1].
    specialize (Hgrow 0%nat q1 w1 q2 w2 H0 H1).
    vm_compute in H0. injection H0 as <- <-.
    vm_compute in H1. injection H1 as <- <-.
    vm_compute in Hgrow. discriminate Hgrow.
Qed.

(** The two halves of the lookup, run without a wait between them, are the
    lookup. *)
Lemma lookup_halves amb addr w :
  isProxyOrVPN amb addr w
  = (started <- lookupBegin addr ;;
     match started with
     | Answered flag => ret flag
     | Asked cached => lookupEnd amb addr cached
     end) w.
Proof.
  unfold isProxyOrVPN, lookupBegin, lookupEnd.
  destruct (JsString.isEmpty addr); [reflexivity|].
  unfold bind, cacheGet, ret. cbn.
  destruct (ipCache w !! addr ≫= isProxy); [reflexivity|].
  unfold tryCatch, bind, fetch, respond, json, member, cacheSet, ret, throw.
  destruct (proxycheck amb) as [ | | data]; reflexivity.
Qed.

Lemma guard_halves_tail amb req1 w1 :
  (isProxy <- isProxyOrVPN amb (detectClientIp req1) ;;
   guardRest amb req1 isProxy) w1
  = (started <-
       (started <- lookupBegin (detectClientIp req1) ;;
        match started with
        | Answered flag => done <- guardRest amb req1 flag ;; ret (inl done)
        | Asked cached =>
            ret (inr {| waiting := req1; snapshot := cached |})
        end) ;;
     match started with
     | inl done => ret done
     | inr s => guardEnd amb s
     end) w1.
Proof.
  unfold bind. rewrite lookup_halves. unfold bind.
  destruct (lookupBegin (detectClientIp req1) w1) as [[e|[flag|cached]] w2].
  - reflexivity.
  - cbn. destruct (guardRest amb req1 flag w2) as [[e|done] w3]; reflexivity.
  - reflexivity.
Qed.

(** So are the two halves of [guard]. *)
Lemma guard_halves amb req w :
  guard amb req w
  = (started <- guardBegin amb req ;;
     match started with
     | inl done => ret done
     | inr s => guardEnd amb s
     end) w.
Proof.
  unfold guard, guardBegin.
  destruct (looksLikeBot (JsString.toLowerCase (userAgentOf req))).
  - exact (guard_halves_tail amb (mark (unmark req) "bot")
             (appendLog {| stamp := isoLog amb; tag := "BOT->WHITE";
                           logIp := detectClientIp req;
                           logUa := userAgentOf req |} w)).
  - exact (guard_halves_tail amb (unmark req) w).
Qed.

(** Requests that overlap escape the rate limit: when six requests of a
    new address have all arrived before the service answers the first,
    each writes back the entry it did not find, with count 0, and counts
    itself: the count ends at 1 and none of the six is suspicious, though
    their clock readings are 300 ms apart.  Hence the proviso of C3, as
    amended, that each request is served before the next arrives. *)
Lemma overlapping_burst_is_not_limited :
  map verdict (fst (overlapped sixQuickRequests emptyWorld))
  = [ (false, ""); (false, ""); (false, "");
      (false, ""); (false, ""); (false, "") ]
  /\ rateCount (snd (overlapped sixQuickRequests emptyWorld)) "203.0.113.7"
     = 1
  /\ length (fetched (snd (overlapped sixQuickRequests emptyWorld))) = 6%nat.
Proof. repeat split; vm_compute; reflexivity. Qed.





(** ** The window of the rate limit *)

(** C4, as amended. A request reads the clock once for the rate limit; the
    entry of its address then carries that reading as [last], and its count
    is the count found plus one when the reading is less than 2000 ms after
    the [last] found, and 1 otherwise: at 2000 ms or more, or when the cache
    held nothing for the address. *)
Theorem rate_window amb req w req' w' :
  reachable w ->
  guard amb req w = (Return req', w') ->
  exists e',
    ipCache w' !! detectClientIp req = Some e'
    /\ last e' = nowGuard amb
    /\ count e' =
         match ipCache w !! detectClientIp req with
         | Some e => if nowGuard amb - last e <? 2000 then count e + 1 else 1
         | None => 1
         end.
Proof.
  intros Hw Hg.
  eexists. split; [exact (guard_entry _ _ _ _ _ (reachable_ok _ Hw) Hg)|].
  split; [apply entryAfter_last|].
  now destruct (ipCache w !! detectClientIp req).
Qed.

Lemma rate_window_witness :
  exists e',
    ipCache (worldAfter (twoRequests ++ [(cleanAt 3500 3501, browserRequest)])
               emptyWorld) !! "203.0.113.7" = Some e'
    /\ last e' = 3501
    /\ count e' = 1.
Proof.
  destruct (guard_returns (cleanAt 3500 3501) browserRequest
              (worldAfter twoRequests emptyWorld)) as (req' & w' & Hg).
  destruct (rate_window _ _ _ _ _
              (reachable_serve twoRequests _ reach_start) Hg)
    as (e' & He & Hl & Hc).
  exists e'. vm_compute in Hg. injection Hg as _ <-.
  split; [exact He|]. split; [exact Hl | exact Hc].
Defined.

(** C4, as stated, fails: a third request exactly 2000 ms after the second
    finds the count 2 and leaves 1, not 3. *)
Lemma resets_only_beyond_window_fails : ~ resetsOnlyBeyondWindow.
Proof.
  intros H.
  destruct (guard_returns (cleanAt 3500 3501) browserRequest
              (worldAfter twoRequests emptyWorld)) as (req' & w' & Hg).
  specialize (H _ _ _ _ _ {| isProxy := Some false; last := 1501; count := 2 |}
                (reachable_serve twoRequests _ reach_start) Hg eq_refl).
  vm_compute in Hg. injection Hg as _ <-.
  vm_compute in H. discriminate H.
Qed.

(** ** The memoized lookup *)

(** C5. Once the entry of an address carries [isProxy], in any world the
    server can be in, the lookup resolves to that boolean and leaves the
    world as it found it, the list of requests sent to the service
    included; so does every further lookup, whatever the service would
    have answered. *)
Theorem lookup_idempotent w addr e flag :
  reachable w ->
  ipCache w !! addr = Some e ->
  isProxy e = Some flag ->
  (forall amb, isProxyOrVPN amb addr w = (Return flag, w))
  /\ (forall ambs,
        lookups ambs addr w = (map (fun _ => Return flag) ambs, w)).
Proof.
  intros Hw He Hflag.
  assert (forall amb, isProxyOrVPN amb addr w = (Return flag, w)) as Hone.
  { intros amb. destruct (JsString.isEmpty addr) eqn:E.
    - destruct (reachable_ok _ Hw _ _ He) as (_ & _ & Hempty).
      rewrite (Hempty E) in Hflag. injection Hflag as <-.
      now apply lookup_empty_address.
    - apply lookup_memoized; [exact E|]. now rewrite He. }
  split; [exact Hone|].
  induction ambs as [| amb rest IH]; cbn; [reflexivity|].
  now rewrite Hone, IH.
Qed.

Lemma lookup_idempotent_witness :
  let w := worldAfter [(flaggedAt 1000 1001, browserRequest)] emptyWorld in
  lookups [downAt 5000 5001; cleanAt 6000 6001] "203.0.113.7" w
  = ([Return true; Return true], w).
Proof.
  intros w.
  apply (proj2 (lookup_idempotent w "203.0.113.7"
                  {| isProxy := Some true; last := 1001; count := 1 |} true
                  (reachable_serve _ _ reach_start) eq_refl eq_refl)).
Defined.

(** C10. A lookup for an address whose entry carries [isProxy] leaves the
    whole cache as it was, the entry included.  The cache changes only
    where no answer was memoized: then the service has been asked, and the
    entry written holds the answer, the clock reading of the lookup and
    the count found, or 0. *)
Theorem lookup_frame amb addr w :
  (forall e,
      ipCache w !! addr = Some e ->
      is_Some (isProxy e) ->
      ipCache (snd (isProxyOrVPN amb addr w)) = ipCache w
      /\ ipCache (snd (isProxyOrVPN amb addr w)) !! addr = Some e)
  /\ (ipCache (snd (isProxyOrVPN amb addr w)) <> ipCache w ->
      ipCache w !! addr ≫= isProxy = None
      /\ fetched (snd (isProxyOrVPN amb addr w))
         = (fetched w ++ [proxycheckUrl addr])%list
      /\ ipCache (snd (isProxyOrVPN amb addr w))
         = <[addr := {| isProxy := Some (resolved (isProxyOrVPN amb addr w));
                        last := nowLookup amb;
                        count := from_option count 0 (ipCache w !! addr) |}]>
             (ipCache w)).
Proof.
  destruct (JsString.isEmpty addr) eqn:E.
  - rewrite (lookup_empty_address amb addr w E). cbn. split; [now intros|].
    intros Hne. now contradiction Hne.
  - destruct (ipCache w !! addr ≫= isProxy) as [flag|] eqn:H.
    + rewrite (lookup_memoized amb addr w flag E H). cbn. split; [now intros|].
      intros Hne. now contradiction Hne.
    + rewrite (lookup_asks amb addr w E H). cbn. split; [|now intros].
      intros e He [flag Hflag]. rewrite He in H. cbn in H. congruence.
Qed.

Lemma lookup_frame_witness :
  let w := worldAfter [(flaggedAt 1000 1001, browserRequest)] emptyWorld in
  ipCache (snd (isProxyOrVPN (cleanAt 9000 9001) "203.0.113.7" w)) = ipCache w
  /\ ipCache (snd (isProxyOrVPN (cleanAt 9000 9001) "203.0.113.7" w))
       !! "203.0.113.7"
     = Some {| isProxy := Some true; last := 1001; count := 1 |}.
Proof.
  intros w.
  apply (proj1 (lookup_frame (cleanAt 9000 9001) "203.0.113.7" w)).
  - reflexivity.
  - cbn. eauto.
Defined.

(** ** Failing open *)

(** C6. The lookup resolves to [false] for the empty address, and it never
    throws.  When it has to ask the service and the service fails, it
    resolves to [false]; the request then passes [guard] without an
    exception and is not flagged [vpn_proxy]. *)
Theorem lookup_fails_open amb addr w :
  isProxyOrVPN amb "" w = (Return false, w)
  /\ (exists flag w', isProxyOrVPN amb addr w = (Return flag, w'))
  /\ (lookupFails (proxycheck amb) ->
      ipCache w !! addr ≫= isProxy = None ->
      fst (isProxyOrVPN amb addr w) = Return false
      /\ forall req,
           detectClientIp req = addr ->
           exists req' w',
             guard amb req w = (Return req', w')
             /\ suspiciousReason req' <> "vpn_proxy").
Proof.
  split; [reflexivity|]. split.
  { destruct (lookup_returns amb addr w) as (flag & w' & Hrun & _). eauto. }
  intros Hfail Hmiss.
  assert (fst (isProxyOrVPN amb addr w) = Return false) as Hfalse.
  { destruct (JsString.isEmpty addr) eqn:E.
    - now rewrite lookup_empty_address.
    - rewrite lookup_asks by assumption. cbn.
      destruct Hfail as [-> | [-> | ->]]; reflexivity. }
  split; [exact Hfalse|].
  intros req <-.
  destruct (guard_outcome amb req w) as (req' & w' & Hg & Hv & _).
  exists req', w'. split; [exact Hg|].
  revert Hv. unfold checksOf, proxyCondition, resolved. rewrite Hfalse.
  unfold verdict, firstMatch.
  destruct (botCondition req), (emulatorCondition req),
    (rateCount w' (detectClientIp req) >? 5); cbn; intros [= _ ->]; discriminate.
Qed.

Lemma lookup_fails_open_witness :
  fst (isProxyOrVPN (downAt 1000 1001) "203.0.113.7" emptyWorld) = Return false
  /\ exists req' w',
       guard (downAt 1000 1001) browserRequest emptyWorld = (Return req', w')
       /\ suspiciousReason req' <> "vpn_proxy".
Proof.
  destruct (proj2 (proj2 (lookup_fails_open (downAt 1000 1001)
                            "203.0.113.7" emptyWorld)))
    as [Hfalse Hguard].
  - left. reflexivity.
  - reflexivity.
  - split; [exact Hfalse|]. apply Hguard. reflexivity.
Defined.

(** ** The client address *)

Lemma detectWithoutHeader_spec req :
  detectWithoutHeader req = normalizeIp (orElse (ip req) (remoteOf req)).
Proof.
  unfold detectWithoutHeader, orElse.
  destruct (ip req) as [addr|]; [|reflexivity].
  now destruct (JsString.truthy addr).
Qed.

Lemma truthy_nonempty s : JsString.truthy s = true <-> s <> "".
Proof. destruct s; cbn; split; congruence. Qed.

Lemma split_head sep s :
  exists first rest, JsString.split sep s = first :: rest.
Proof.
  destruct s as [| c r]; cbn; [eauto|].
  destruct (Ascii.eqb c sep); [eauto|].
  destruct (JsString.split sep r); eauto.
Qed.

(** C7, as amended. With a forwarding header, the resolved address is the
    first element of the chain, trimmed and normalized, when that element
    is not empty after trimming; it is then also the first element of the
    chain that is not empty.  When the first element is blank the later
    elements are not read: the address is the one express resolved, or the
    transport address when express resolved none. *)
Theorem forwarded_first_element req xff :
  headers req !! "x-forwarded-for" = Some xff ->
  let first := JsString.trim (hd "" (JsString.split "," xff)) in
  (first <> "" ->
     detectClientIp req = normalizeIp first
     /\ firstNonEmpty xff = Some first)
  /\ (first = "" ->
     detectClientIp req = normalizeIp (orElse (ip req) (remoteOf req))).
Proof.
  intros Hx first. unfold detectClientIp. rewrite Hx. fold first. split.
  - intros Hne. apply truthy_nonempty in Hne as Ht. rewrite Ht.
    assert (JsString.truthy xff = true) as ->.
    { destruct xff; [|reflexivity]. now contradiction Hne. }
    split; [reflexivity|].
    unfold firstNonEmpty. subst first.
    destruct (split_head "," xff) as (f & rest & Hs). rewrite Hs in *.
    cbn [hd] in Ht. cbn [hd map List.find]. now rewrite Ht.
  - intros ->. cbn. rewrite <- detectWithoutHeader_spec.
    now destruct (JsString.truthy xff).
Qed.

Lemma forwarded_first_element_witness :
  detectClientIp chainRequest = "203.0.113.7"
  /\ firstNonEmpty " ::ffff:203.0.113.7 , 10.0.0.1" = Some "::ffff:203.0.113.7".
Proof.
  apply (proj1 (forwarded_first_element chainRequest
                  " ::ffff:203.0.113.7 , 10.0.0.1" eq_refl)).
  discriminate.
Defined.

(** C7, as stated, fails: with the chain [,<TAB>, 203.0.113.7] the first
    element that is not blank is 203.0.113.7, and the resolved address is
    the empty string, which is what is left of the address express
    resolved. *)
Lemma resolves_to_first_non_empty_fails : ~ resolvesToFirstNonEmpty.
Proof.
  intros H.
  specialize (H blankHeadRequest ("," +:+ TAB +:+ ", 203.0.113.7")
                "203.0.113.7" eq_refl).
  vm_compute in H. specialize (H ltac:(lia) eq_refl). discriminate H.
Qed.

(** ** The user agent sent upstream *)

(** C9. A request that is not suspicious keeps its user agent.  A
    suspicious one is sent the empty user agent in mode [empty]; in mode
    [suffix] it is sent its own followed by [ bot], or [bot] alone when it
    had none. *)
Theorem uaToSend_spec env req :
  (suspicious req = false -> uaToSend env req = userAgentOf req)
  /\ (suspicious req = true -> whiteUaMode env = "empty" ->
      uaToSend env req = "")
  /\ (suspicious req = true -> whiteUaMode env = "suffix" ->
      uaToSend env req =
        if JsString.isEmpty (userAgentOf req) then "bot"
        else userAgentOf req +:+ " bot").
Proof.
  unfold uaToSend, JsString.truthy. repeat split.
  - now intros ->.
  - now intros -> ->.
  - intros -> ->. cbn. now destruct (JsString.isEmpty (userAgentOf req)).
Qed.

Lemma uaToSend_spec_witness : uaToSend noEnv myBotRequest = "MyBot/1.0 bot".
Proof.
  apply (proj2 (proj2 (uaToSend_spec noEnv myBotRequest))); reflexivity.
Defined.

(** ** The image of the upstream page *)

Lemma firstImage_without_img site html :
  JsString.indexOf "<img" html 0 = -1 -> firstImage site html = "".
Proof. intros H. unfold firstImage. now rewrite H. Qed.

Lemma firstImage_without_src site html :
  JsString.indexOf "src=" html (JsString.indexOf "<img" html 0) = -1 ->
  firstImage site html = "".
Proof.
  intros H. unfold firstImage.
  destruct (JsString.indexOf "<img" html 0 =? -1); [reflexivity|].
  now rewrite H.
Qed.

(** C8 holds of a page without [<img] and of one without [src=] after it
    (the two lemmas above), and fails where the quote that opens the value
    is never closed: the search for the closing quote answers -1,
    [substring] takes that for 0 and swaps its bounds, and the page up to
    and including the opening quote is sent back as the image, under the
    lander path.  Both variants of the server do so. *)
Theorem unclosed_quote_image :
  answer defaultSite (page defaultSite "<img src='pic.png")
  = {| image_url :=
         "https://origin.skytalonsacademy.lol/lander/skytalons/<img src='";
       site_url := "" |}
  /\ answerOld defaultSite (page defaultSite "<img src='pic.png")
    = Ok200 "https://origin.skytalonsacademy.lol/lander/skytalons/<img src='"
            "".
Proof. split; vm_compute; reflexivity. Qed.

(** * Further properties *)

(** ** Trimmed strings *)

Lemma trimStart_head s :
  JsString.trimStart s = ""
  \/ exists c r, JsString.trimStart s = String c r /\ JsString.isSpace c = false.
Proof.
  induction s as [| c r IH]; cbn; [now left|].
  destruct (JsString.isSpace c) eqn:E; [exact IH|]. right. eauto.
Qed.

Lemma trimEnd_idempotent s :
  JsString.trimEnd (JsString.trimEnd s) = JsString.trimEnd s.
Proof.
  induction s as [| c r IH]; cbn; [reflexivity|].
  destruct (JsString.isSpace c && JsString.isEmpty (JsString.trimEnd r)) eqn:E;
    cbn; [reflexivity|].
  now rewrite IH, E.
Qed.

Lemma trimStart_trimEnd_head c r :
  JsString.isSpace c = false ->
  JsString.trimStart (JsString.trimEnd (String c r))
  = JsString.trimEnd (String c r).
Proof. intros E. cbn. rewrite E. cbn. now rewrite E. Qed.

Lemma trim_idempotent s : JsString.trim (JsString.trim s) = JsString.trim s.
Proof.
  unfold JsString.trim.
  destruct (trimStart_head s) as [-> | (c & r & -> & E)]; [reflexivity|].
  rewrite trimStart_trimEnd_head by exact E. apply trimEnd_idempotent.
Qed.

Lemma normalizeIp_trimmed s : JsString.trim (normalizeIp s) = normalizeIp s.
Proof.
  unfold normalizeIp. destruct (JsString.isEmpty s); [reflexivity|].
  apply trim_idempotent.
Qed.

(** X1. The address [detectClientIp] resolves, which is the key of the
    cache and the address written to the log, never starts or ends with
    white space: trimming it again changes nothing. *)
Theorem detectClientIp_trimmed req :
  JsString.trim (detectClientIp req) = detectClientIp req.
Proof.
  unfold detectClientIp, detectWithoutHeader.
  repeat match goal with
         | |- context [match ?x with _ => _ end] => destruct x
         end; apply normalizeIp_trimmed.
Qed.

(** ** What one request changes *)

Lemma lookup_cases amb addr w :
  (isProxyOrVPN amb addr w = (Return (resolved (isProxyOrVPN amb addr w)), w)
   /\ (JsString.isEmpty addr = true
       \/ is_Some (ipCache w !! addr ≫= isProxy)))
  \/ (JsString.isEmpty addr = false
      /\ ipCache w !! addr ≫= isProxy = None
      /\ isProxyOrVPN amb addr w =
           (Return (serviceSays (proxycheck amb) addr),
            setCache
              (<[addr := {| isProxy := Some (serviceSays (proxycheck amb) addr);
                            last := nowLookup amb;
                            count := from_option count 0 (ipCache w !! addr) |}]>
                 (ipCache w))
              (recordFetch (proxycheckUrl addr) w))).
Proof.
  destruct (JsString.isEmpty addr) eqn:E.
  - left. rewrite (lookup_empty_address amb addr w E). cbn. auto.
  - destruct (ipCache w !! addr ≫= isProxy) as [flag|] eqn:H.
    + left. rewrite (lookup_memoized amb addr w flag E H). cbn. eauto.
    + right. split; [reflexivity|]. split; [reflexivity|].
      now apply lookup_asks.
Qed.

Lemma guard_world amb req w req' w' :
  guard amb req w = (Return req', w') ->
  let addr := detectClientIp req in
  let w1 := snd (isProxyOrVPN amb addr w) in
  ipCache w' =
    <[addr := touch (nowGuard amb) (default freshEntry (ipCache w1 !! addr))]>
      (ipCache w1)
  /\ fetched w' = fetched w1
  /\ headers req' = headers req /\ ip req' = ip req /\ socket req' = socket req.
Proof.
  intros Hg addr w1.
  destruct (lookup_returns amb addr w) as (flag & w2 & Hrun & _).
  subst w1. rewrite Hrun. cbn [snd].
  rewrite (guard_run _ _ _ _ _ Hrun) in Hg. injection Hg as <- <-.
  cbn. auto.
Qed.

Lemma lookup_other amb addr w k :
  k <> addr ->
  ipCache (snd (isProxyOrVPN amb addr w)) !! k = ipCache w !! k.
Proof.
  intros Hk.
  destruct (lookup_cases amb addr w) as [[-> _] | (_ & _ & ->)]; cbn;
    [reflexivity|].
  now rewrite lookup_insert_ne.
Qed.

Lemma lookup_keeps_flag amb addr w e :
  ipCache w !! addr = Some e ->
  is_Some (isProxy e) ->
  ipCache (snd (isProxyOrVPN amb addr w)) !! addr = Some e.
Proof.
  intros He [flag Hflag].
  destruct (lookup_cases amb addr w) as [[-> _] | (_ & Hmiss & _)]; cbn;
    [exact He|].
  rewrite He in Hmiss. cbn in Hmiss. congruence.
Qed.

Lemma guard_other amb req w req' w' k :
  guard amb req w = (Return req', w') ->
  k <> detectClientIp req ->
  ipCache w' !! k = ipCache w !! k.
Proof.
  intros Hg Hk. destruct (guard_world _ _ _ _ _ Hg) as (-> & _).
  rewrite lookup_insert_ne by congruence. now apply lookup_other.
Qed.

(** X2. A request changes the entry of its own address only: the entry
    of every other address, its presence included, is what it was. *)
Theorem guard_frame amb req w req' w' k :
  guard amb req w = (Return req', w') ->
  k <> detectClientIp req ->
  ipCache w' !! k = ipCache w !! k.
Proof. apply guard_other. Qed.

Lemma guard_frame_witness :
  ipCache (worldAfter [(cleanAt 5000 5001, otherRequest)] flaggedWorld)
    !! "203.0.113.7"
  = ipCache flaggedWorld !! "203.0.113.7".
Proof.
  destruct (guard_returns (cleanAt 5000 5001) otherRequest flaggedWorld)
    as (req' & w' & Hg).
  cbn [worldAfter]. rewrite Hg.
  apply (guard_frame _ _ _ _ _ "203.0.113.7" Hg). discriminate.
Defined.

(** ** The cache over the life of the server *)

#[local] Set Warnings "-clear-no-such-hyp".

Lemma worldAfter_cons amb req rest w req' w' :
  guard amb req w = (Return req', w') ->
  worldAfter ((amb, req) :: rest) w = worldAfter rest w'.
Proof. intros Hg. cbn. now rewrite Hg. Qed.

Lemma guard_dom amb req w req' w' :
  guard amb req w = (Return req', w') ->
  dom (ipCache w') = {[detectClientIp req]} ∪ dom (ipCache w).
Proof.
  intros Hg. destruct (guard_world _ _ _ _ _ Hg) as (-> & _).
  rewrite dom_insert_L.
  destruct (lookup_cases amb (detectClientIp req) w) as [[-> _] | (_ & _ & ->)];
    cbn; [reflexivity|].
  rewrite dom_insert_L. set_solver.
Qed.

(** X3. Whatever requests are served, the addresses the cache holds
    afterwards are those it held before together with the address of every
    request served: each address seen gets an entry, none is ever
    evicted. *)
Theorem cache_domain events : forall w,
  dom (ipCache (worldAfter events w))
  = dom (ipCache w) ∪ list_to_set (addressesOf events).
Proof.
  induction events as [| [amb req] rest IH]; intros w.
  - cbn. set_solver.
  - destruct (guard_returns amb req w) as (req' & w' & Hg).
    rewrite (worldAfter_cons _ _ _ _ _ _ Hg), IH, (guard_dom _ _ _ _ _ Hg).
    cbn. set_solver.
Qed.

Lemma guard_keeps_flag amb req w req' w' k e :
  guard amb req w = (Return req', w') ->
  ipCache w !! k = Some e ->
  is_Some (isProxy e) ->
  exists e', ipCache w' !! k = Some e' /\ isProxy e' = isProxy e.
Proof.
  intros Hg He Hflag.
  destruct (decide (k = detectClientIp req)) as [-> | Hk].
  - destruct (guard_world _ _ _ _ _ Hg) as (-> & _).
    rewrite lookup_insert_eq, (lookup_keeps_flag _ _ _ _ He Hflag). cbn. eauto.
  - rewrite (guard_other _ _ _ _ _ _ Hg Hk). eauto.
Qed.

Lemma flag_kept events : forall w k e,
  ipCache w !! k = Some e ->
  is_Some (isProxy e) ->
  exists e',
    ipCache (worldAfter events w) !! k = Some e' /\ isProxy e' = isProxy e.
Proof.
  induction events as [| [amb req] rest IH]; intros w k e He Hflag;
    [cbn; eauto|].
  destruct (guard_returns amb req w) as (req' & w' & Hg).
  rewrite (worldAfter_cons _ _ _ _ _ _ Hg).
  destruct (guard_keeps_flag _ _ _ _ _ _ _ Hg He Hflag) as (e1 & He1 & Hf1).
  destruct (IH w' k e1 He1) as (e' & He' & Hf'); [now rewrite Hf1|].
  exists e'. split; [exact He'|]. congruence.
Qed.

(** X4. Once the entry of an address carries an answer of the reputation
    service, no later request changes that answer or removes the entry. *)
Theorem flag_permanent events w k e :
  ipCache w !! k = Some e ->
  is_Some (isProxy e) ->
  exists e',
    ipCache (worldAfter events w) !! k = Some e' /\ isProxy e' = isProxy e.
Proof. apply flag_kept. Qed.

Lemma flag_permanent_witness :
  exists e',
    ipCache (worldAfter sixQuickRequests flaggedWorld) !! "203.0.113.7"
    = Some e'
    /\ isProxy e' = Some true.
Proof.
  apply (flag_permanent sixQuickRequests flaggedWorld "203.0.113.7"
           {| isProxy := Some true; last := 1001; count := 1 |}).
  - reflexivity.
  - cbn. eauto.
Defined.

(** X5. A failed lookup is remembered as "no proxy", as long as requests
    are served one after the other: when the service fails at the first
    request of an address, and every further request arrives after that
    one has been served and after the one before it, every lookup of the
    address from then on resolves to [false] and leaves the world alone,
    whatever the service would answer by then.  (A request that overlaps
    the first lookup does its own lookup and writes its own answer.) *)
Theorem failed_lookup_sticks amb req w req' w' events amb' :
  lookupFails (proxycheck amb) ->
  JsString.isEmpty (detectClientIp req) = false ->
  ipCache w !! detectClientIp req = None ->
  guard amb req w = (Return req', w') ->
  isProxyOrVPN amb' (detectClientIp req) (worldAfter events w')
  = (Return false, worldAfter events w').
Proof.
  intros Hfail E Hnone Hg. set (addr := detectClientIp req) in *.
  assert (exists e, ipCache w' !! addr = Some e /\ isProxy e = Some false)
    as (e & He & Hflag).
  { destruct (guard_world _ _ _ _ _ Hg) as (-> & _). fold addr.
    rewrite lookup_insert_eq. eexists. split; [reflexivity|].
    rewrite lookup_asks by (try assumption; now rewrite Hnone).
    cbn. rewrite lookup_insert_eq. cbn.
    destruct Hfail as [-> | [-> | ->]]; reflexivity. }
  destruct (flag_kept events w' addr e He) as (e' & He' & Hf');
    [rewrite Hflag; eauto|].
  apply lookup_memoized; [exact E|]. rewrite He'. cbn. congruence.
Qed.

Lemma failed_lookup_sticks_witness :
  let w' := worldAfter [(downAt 1000 1001, browserRequest)] emptyWorld in
  isProxyOrVPN (flaggedAt 9000 9001) "203.0.113.7"
    (worldAfter sixQuickRequests w')
  = (Return false, worldAfter sixQuickRequests w').
Proof.
  intros w'.
  destruct (guard_returns (downAt 1000 1001) browserRequest emptyWorld)
    as (req' & w1 & Hg).
  assert (w' = w1) as -> by (subst w'; cbn [worldAfter]; now rewrite Hg).
  apply (failed_lookup_sticks (downAt 1000 1001) browserRequest emptyWorld
           req' w1 sixQuickRequests (flaggedAt 9000 9001)).
  - left. reflexivity.
  - reflexivity.
  - reflexivity.
  - exact Hg.
Defined.

(** ** Strings put together *)

Lemma app_cons x a b : String x a +:+ b = String x (a +:+ b).
Proof. reflexivity. Qed.

Lemma length_append_s a b :
  String.length (a +:+ b) = (String.length a + String.length b)%nat.
Proof.
  induction a as [| x a IH]; [reflexivity|].
  rewrite app_cons. cbn [String.length]. now rewrite IH.
Qed.

Lemma app_assoc_s a b c : (a +:+ b) +:+ c = a +:+ b +:+ c.
Proof.
  induction a as [| x a IH]; [reflexivity|]. rewrite !app_cons. now f_equal.
Qed.

Lemma app_empty_r a : a +:+ "" = a.
Proof.
  induction a as [| x a IH]; [reflexivity|]. rewrite app_cons. now f_equal.
Qed.

Lemma app_inv_tail_s s : forall a b, a +:+ s = b +:+ s -> a = b.
Proof.
  induction a as [| x a IH]; intros [| y b] H.
  - reflexivity.
  - apply (f_equal String.length) in H.
    rewrite app_cons in H. cbn [String.length] in H.
    change ("" +:+ s) with s in H. rewrite length_append_s in H. lia.
  - apply (f_equal String.length) in H.
    rewrite app_cons in H. cbn [String.length] in H.
    change ("" +:+ s) with s in H. rewrite length_append_s in H. lia.
  - rewrite !app_cons in H. injection H as -> H. f_equal. now apply IH.
Qed.

Lemma proxycheckUrl_inj a b : proxycheckUrl a = proxycheckUrl b -> a = b.
Proof.
  unfold proxycheckUrl. intros H.
  apply (inj (String.append _)) in H. now apply app_inv_tail_s in H.
Qed.

(** ** The requests sent to the reputation service *)

Lemma guard_fetched amb req w req' w' :
  guard amb req w = (Return req', w') ->
  (fetched w' = fetched w
   /\ (JsString.isEmpty (detectClientIp req) = true
       \/ is_Some (ipCache w !! detectClientIp req ≫= isProxy)))
  \/ (fetched w' = (fetched w ++ [proxycheckUrl (detectClientIp req)])%list
      /\ ipCache w !! detectClientIp req ≫= isProxy = None
      /\ JsString.isEmpty (detectClientIp req) = false).
Proof.
  intros Hg. destruct (guard_world _ _ _ _ _ Hg) as (_ & -> & _).
  destruct (lookup_cases amb (detectClientIp req) w)
    as [[-> H] | (E & H & ->)]; cbn; auto.
Qed.

Lemma guard_flags_address amb req w req' w' :
  guard amb req w = (Return req', w') ->
  JsString.isEmpty (detectClientIp req) = false ->
  is_Some (ipCache w' !! detectClientIp req ≫= isProxy).
Proof.
  intros Hg E. destruct (guard_world _ _ _ _ _ Hg) as (-> & _).
  rewrite lookup_insert_eq. cbn.
  destruct (lookup_cases amb (detectClientIp req) w)
    as [[-> [E' | Hm]] | (_ & _ & ->)]; cbn.
  - congruence.
  - destruct (ipCache w !! detectClientIp req) as [e|]; cbn in *; [exact Hm|].
    now destruct Hm.
  - rewrite lookup_insert_eq. cbn. eauto.
Qed.

(** Every request sent went out for an address whose answer the cache
    still holds, and no request was sent twice. *)
Lemma fetched_invariant w :
  reachable w ->
  NoDup (fetched w)
  /\ forall u, u ∈ fetched w ->
       exists a, u = proxycheckUrl a /\ is_Some (ipCache w !! a ≫= isProxy).
Proof.
  induction 1 as [| amb req w req' w' _ [Hnd Hin] Hg].
  - split; [constructor|]. intros u Hu. cbn in Hu. now apply elem_of_nil in Hu.
  - assert (forall u, u ∈ fetched w ->
              exists a, u = proxycheckUrl a
                        /\ is_Some (ipCache w' !! a ≫= isProxy)) as Hold.
    { intros u Hu. destruct (Hin u Hu) as (a & -> & Hflag).
      exists a. split; [reflexivity|].
      destruct (ipCache w !! a) as [e|] eqn:He; cbn in Hflag;
        [|now destruct Hflag].
      destruct (guard_keeps_flag _ _ _ _ _ _ _ Hg He Hflag) as (e' & -> & Hf).
      cbn. now rewrite Hf. }
    destruct (guard_fetched _ _ _ _ _ Hg) as [[-> _] | (-> & Hmiss & E)].
    + split; [exact Hnd | exact Hold].
    + split.
      * apply NoDup_app. split; [exact Hnd|]. split; [|apply NoDup_singleton].
        intros u Hu ->%list_elem_of_singleton.
        destruct (Hin _ Hu) as (a & Heq & Hflag).
        apply proxycheckUrl_inj in Heq. subst a.
        rewrite Hmiss in Hflag. now destruct Hflag.
      * intros u [Hu | ->%list_elem_of_singleton]%elem_of_app; [now apply Hold|].
        exists (detectClientIp req). split; [reflexivity|].
        exact (guard_flags_address _ _ _ _ _ Hg E).
Qed.

(** X6. The reputation service is never asked twice about one address:
    in every world the server can be in, the requests sent so far are
    pairwise different, and each went out for an address that the cache
    holds with its answer. *)
Theorem never_asks_twice w :
  reachable w ->
  NoDup (fetched w)
  /\ forall u, u ∈ fetched w ->
       exists a, u = proxycheckUrl a
                 /\ is_Some (ipCache w !! a ≫= isProxy).
Proof. apply fetched_invariant. Qed.

Lemma never_asks_twice_witness :
  NoDup (fetched (worldAfter sixQuickRequests flaggedWorld))
  /\ forall u, u ∈ fetched (worldAfter sixQuickRequests flaggedWorld) ->
       exists a, u = proxycheckUrl a
                 /\ is_Some (ipCache (worldAfter sixQuickRequests flaggedWorld)
                               !! a ≫= isProxy).
Proof.
  apply (never_asks_twice (worldAfter sixQuickRequests flaggedWorld)).
  apply reachable_serve. apply reachable_serve. constructor.
Defined.

(** ** Counting requests *)

Lemma guard_count_step amb req w req' w' addr :
  cacheOk w ->
  guard amb req w = (Return req', w') ->
  rateCount w' addr
  <= rateCount w addr + (if String.eqb addr (detectClientIp req) then 1 else 0).
Proof.
  intros Hok Hg. unfold rateCount.
  destruct (String.eqb_spec addr (detectClientIp req)) as [-> | Hne].
  - rewrite (guard_entry _ _ _ _ _ Hok Hg).
    destruct (ipCache w !! detectClientIp req) as [e|] eqn:He; cbn; [|lia].
    destruct (Hok _ _ He) as (_ & Hc & _). unfold touch. cbn.
    destruct (nowGuard amb - last e <? 2000); lia.
  - rewrite (guard_other _ _ _ _ _ _ Hg Hne). lia.
Qed.

Lemma rateCount_nonneg w addr : cacheOk w -> 0 <= rateCount w addr.
Proof.
  intros Hok. unfold rateCount.
  destruct (ipCache w !! addr) as [e|] eqn:He; [|lia].
  destruct (Hok _ _ He) as (_ & Hc & _). lia.
Qed.

Lemma count_bounded events addr : forall w,
  cacheOk w ->
  rateCount (worldAfter events w) addr
  <= rateCount w addr + Z.of_nat (requestsFrom addr events).
Proof.
  unfold requestsFrom, addressesOf.
  induction events as [| [amb req] rest IH]; intros w Hok; [cbn; lia|].
  destruct (guard_returns amb req w) as (req' & w' & Hg).
  rewrite (worldAfter_cons _ _ _ _ _ _ Hg).
  specialize (IH w' (guard_preserves _ _ _ _ _ Hok Hg)).
  pose proof (guard_count_step _ _ _ _ _ addr Hok Hg) as Hstep.
  cbn [map List.filter snd].
  destruct (String.eqb addr (detectClientIp req)); cbn [length]; lia.
Qed.

(** X7. The count the cache holds for an address never exceeds the number
    of requests served from that address since the server started; so a
    request is flagged [rate_limit] only if at least five requests from
    its address were served before it. *)
Theorem rate_limit_needs_six events amb req req' w' :
  guard amb req (worldAfter events emptyWorld) = (Return req', w') ->
  rateCount w' (detectClientIp req)
  <= Z.of_nat (requestsFrom (detectClientIp req) events) + 1
  /\ (suspiciousReason req' = "rate_limit" ->
      (5 <= requestsFrom (detectClientIp req) events)%nat).
Proof.
  intros Hg. set (w := worldAfter events emptyWorld) in *.
  assert (cacheOk w) as Hok
    by (apply reachable_ok, reachable_serve; constructor).
  assert (rateCount w' (detectClientIp req)
          <= Z.of_nat (requestsFrom (detectClientIp req) events) + 1) as Hle.
  { pose proof (guard_count_step _ _ _ _ _ (detectClientIp req) Hok Hg) as H1.
    rewrite String.eqb_refl in H1.
    pose proof (count_bounded events (detectClientIp req) emptyWorld) as H2.
    fold w in H2. unfold rateCount at 2 in H2. cbn in H2.
    rewrite lookup_empty in H2.
    assert (cacheOk emptyWorld) as H0 by (apply reachable_ok; constructor).
    specialize (H2 H0). lia. }
  split; [exact Hle|]. intros Hr.
  destruct (guard_outcome amb req w) as (q & w2 & Hg' & Hv & _).
  rewrite Hg in Hg'. injection Hg' as <- <-.
  revert Hv. unfold checksOf, verdict, firstMatch. rewrite Hr.
  destruct (botCondition req), (proxyCondition amb req w),
    (emulatorCondition req); cbn; try discriminate.
  destruct (Z.gtb_spec (rateCount w' (detectClientIp req)) 5); cbn;
    [intros _; lia | discriminate].
Qed.

Lemma rate_limit_needs_six_witness :
  exists req' w',
    guard (cleanAt 2800 2801) browserRequest
      (worldAfter sixQuickRequests emptyWorld) = (Return req', w')
    /\ rateCount w' "203.0.113.7" <= 7.
Proof.
  destruct (guard_returns (cleanAt 2800 2801) browserRequest
              (worldAfter sixQuickRequests emptyWorld)) as (req' & w' & Hg).
  exists req', w'. split; [exact Hg|].
  exact (proj1 (rate_limit_needs_six sixQuickRequests _ _ _ _ Hg)).
Defined.

(** ** The request after [guard] *)

Lemma guard_request_kept amb req w req' w' :
  guard amb req w = (Return req', w') ->
  detectClientIp req' = detectClientIp req
  /\ userAgentOf req' = userAgentOf req.
Proof.
  intros Hg.
  destruct (guard_world _ _ _ _ _ Hg) as (_ & _ & Hh & Hi & Hs).
  split; [unfold detectClientIp, detectWithoutHeader, remoteOf;
          now rewrite Hh, Hi, Hs|].
  unfold userAgentOf. now rewrite Hh.
Qed.

(** X8. [guard] leaves the headers, the resolved address and the socket of
    the request as they were, so the handler resolves the same client
    address and reads the same user agent; and the verdict is one of five:
    not suspicious with the empty reason, or suspicious with one of the
    four reasons. *)
Theorem guard_verdict_shape amb req w req' w' :
  guard amb req w = (Return req', w') ->
  (headers req' = headers req /\ ip req' = ip req /\ socket req' = socket req)
  /\ detectClientIp req' = detectClientIp req
  /\ userAgentOf req' = userAgentOf req
  /\ In (verdict req')
        [ (false, ""); (true, "bot"); (true, "vpn_proxy");
          (true, "emulator"); (true, "rate_limit") ].
Proof.
  intros Hg.
  destruct (guard_world _ _ _ _ _ Hg) as (_ & _ & Hh & Hi & Hs).
  split; [auto|].
  split; [unfold detectClientIp, detectWithoutHeader, remoteOf;
          now rewrite Hh, Hi, Hs|].
  split; [unfold userAgentOf; now rewrite Hh|].
  destruct (guard_outcome amb req w) as (q & w2 & Hg' & Hv & _).
  rewrite Hg in Hg'. injection Hg' as <- <-. rewrite Hv.
  unfold checksOf, firstMatch.
  destruct (botCondition req), (proxyCondition amb req w),
    (emulatorCondition req), (rateCount w' (detectClientIp req) >? 5);
    cbn; auto 10.
Qed.

Lemma guard_verdict_shape_witness :
  exists req' w',
    guard (flaggedAt 1000 1001) curlRequest emptyWorld = (Return req', w')
    /\ detectClientIp req' = "203.0.113.7"
    /\ userAgentOf req' = "curl/8.0".
Proof.
  destruct (guard_returns (flaggedAt 1000 1001) curlRequest emptyWorld)
    as (req' & w' & Hg).
  exists req', w'. split; [exact Hg|].
  destruct (guard_verdict_shape _ _ _ _ _ Hg) as (_ & Ha & Hu & _).
  split; [exact Ha | exact Hu].
Defined.

(** ** More on bursts and pauses *)

(** X10. In a burst of requests served one after the other (the [guard]
    of each has ended before the next arrives), every request from the
    sixth on comes out suspicious, whatever its user agent and whatever
    the service said of the address. *)
Theorem burst_stays_flagged w events addr i q wi :
  reachable w ->
  allFrom addr events ->
  burst events ->
  (5 <= i)%nat ->
  serve events w !! i = Some (q, wi) ->
  suspicious q = true.
Proof.
  intros Hw Hall Hb Hi Hq. pose proof (reachable_ok _ Hw) as Hok.
  pose proof (burst_counts _ _ _ Hok Hall Hb _ _ _ Hq) as Hc.
  destruct (serve_nth _ _ _ _ _ Hok Hq) as (a & r & wp & He & _ & Hg & _).
  destruct (guard_outcome a r wp) as (q' & w' & Hg' & Hv & _).
  rewrite Hg in Hg'. injection Hg' as <- <-.
  unfold allFrom in Hall. rewrite Forall_forall in Hall.
  pose proof (Hall _ (list_elem_of_lookup_2 _ _ _ He)) as Ha. cbn in Ha.
  apply (f_equal fst) in Hv. cbn [verdict fst] in Hv. rewrite Hv.
  unfold checksOf, firstMatch. rewrite Ha.
  destruct (Z.gtb_spec (rateCount wi addr) 5) as [_|]; [|lia].
  now destruct (botCondition r), (proxyCondition a r wp), (emulatorCondition r).
Qed.

Lemma burst_stays_flagged_witness :
  exists q wi,
    serve sixQuickRequests emptyWorld !! 5%nat = Some (q, wi)
    /\ suspicious q = true.
Proof.
  destruct (serve sixQuickRequests emptyWorld !! 5%nat) as [[q wi]|] eqn:H5.
  - exists q, wi. split; [reflexivity|].
    apply (burst_stays_flagged emptyWorld sixQuickRequests "203.0.113.7" 5 q wi).
    + constructor.
    + repeat constructor.
    + cbn. lia.
    + lia.
    + exact H5.
  - vm_compute in H5. discriminate H5.
Defined.

(** X11. A request whose address the cache does not hold, or holds with a
    [last] at least 2000 ms old, is never flagged [rate_limit], however
    high the count stood. *)
Theorem pause_clears_rate_limit amb req w req' w' :
  reachable w ->
  guard amb req w = (Return req', w') ->
  (forall e, ipCache w !! detectClientIp req = Some e ->
             2000 <= nowGuard amb - last e) ->
  rateCount w' (detectClientIp req) = 1
  /\ suspiciousReason req' <> "rate_limit".
Proof.
  intros Hw Hg Hquiet. pose proof (reachable_ok _ Hw) as Hok.
  assert (rateCount w' (detectClientIp req) = 1) as Hone.
  { unfold rateCount. rewrite (guard_entry _ _ _ _ _ Hok Hg).
    destruct (ipCache w !! detectClientIp req) as [e|]; cbn; [|reflexivity].
    specialize (Hquiet e eq_refl). unfold touch. cbn.
    destruct (Z.ltb_spec (nowGuard amb - last e) 2000); [lia | reflexivity]. }
  split; [exact Hone|].
  destruct (guard_outcome amb req w) as (q & w2 & Hg' & Hv & _).
  rewrite Hg in Hg'. injection Hg' as <- <-.
  apply (f_equal snd) in Hv. cbn [verdict snd] in Hv. rewrite Hv.
  unfold checksOf, firstMatch. rewrite Hone.
  now destruct (botCondition req), (proxyCondition amb req w),
    (emulatorCondition req).
Qed.

Lemma pause_clears_rate_limit_witness :
  exists req' w',
    guard (cleanAt 9000 9001) browserRequest
      (worldAfter sixQuickRequests emptyWorld) = (Return req', w')
    /\ rateCount w' "203.0.113.7" = 1
    /\ suspiciousReason req' <> "rate_limit".
Proof.
  destruct (guard_returns (cleanAt 9000 9001) browserRequest
              (worldAfter sixQuickRequests emptyWorld)) as (req' & w' & Hg).
  exists req', w'. split; [exact Hg|].
  apply (pause_clears_rate_limit _ _ _ _ _
           (reachable_serve sixQuickRequests _ reach_start) Hg).
  intros e He. vm_compute in He. injection He as <-. cbn. lia.
Defined.

(** ** Signatures in the user agent *)

Lemma sameChar_refl c : Regex.sameChar true c c = true.
Proof. unfold Regex.sameChar. apply N.eqb_refl. Qed.

(** A literal matches where it stands, whatever comes before and after. *)
Lemma matchAt_lit p : forall prev rest k,
  (forall c, k c rest = true) ->
  Regex.matchAt true (Regex.lit p) prev (p +:+ rest) k = true.
Proof.
  induction p as [| c p IH]; intros prev rest k Hk; [apply Hk|].
  destruct p as [| d p].
  - rewrite app_cons. change ("" +:+ rest) with rest.
    cbn [Regex.lit Regex.matchAt]. rewrite sameChar_refl. apply Hk.
  - change (Regex.lit (String c (String d p)))
      with (Regex.Cat (Regex.Chr c) (Regex.lit (String d p))).
    rewrite app_cons. cbn [Regex.matchAt]. rewrite sameChar_refl.
    now apply IH.
Qed.

Lemma searchFrom_skip i r pre : forall prev s,
  (forall p, Regex.matchAt i r p s (fun _ _ => true) = true) ->
  Regex.searchFrom i r prev (pre +:+ s) = true.
Proof.
  induction pre as [| c pre IH]; intros prev s H.
  - change ("" +:+ s) with s. destruct s; cbn; now rewrite H.
  - rewrite app_cons. cbn. rewrite (IH (Some c) s H). apply orb_true_r.
Qed.

Lemma test_literal p pre post :
  Regex.test (Regex.ci (Regex.lit p)) (pre +:+ p +:+ post) = true.
Proof.
  unfold Regex.test. cbn. apply searchFrom_skip.
  intros prev. now apply matchAt_lit.
Qed.

Lemma some_In patterns p ua :
  In p patterns -> Regex.test p ua = true ->
  Signatures.some patterns ua = true.
Proof.
  intros Hin Ht. unfold Signatures.some. apply existsb_exists. eauto.
Qed.

(** X12. A request whose lower-cased user agent contains one of the
    literal bot signatures, or whose user agent is empty or missing, comes
    out of [guard] suspicious with the reason [bot], whatever its address,
    the cache, the clock and the reputation service. *)
Theorem bot_signature_decides amb req w :
  (JsString.isEmpty (userAgentOf req) = true
   \/ exists word pre post,
        In (Regex.ci (Regex.lit word)) Signatures.botPatterns
        /\ JsString.toLowerCase (userAgentOf req) = pre +:+ word +:+ post) ->
  exists req' w',
    guard amb req w = (Return req', w')
    /\ verdict req' = (true, "bot").
Proof.
  intros H.
  destruct (guard_outcome amb req w) as (req' & w' & Hg & Hv & _).
  exists req', w'. split; [exact Hg|]. rewrite Hv.
  unfold checksOf, firstMatch.
  assert (botCondition req = true) as ->; [|reflexivity].
  unfold botCondition, looksLikeBot.
  destruct H as [E | (word & pre & post & Hin & ->)].
  - destruct (userAgentOf req); [reflexivity | discriminate E].
  - rewrite (some_In _ _ _ Hin (test_literal word pre post)).
    apply orb_true_r.
Qed.

Lemma bot_signature_decides_witness :
  exists req' w',
    guard (cleanAt 1000 1001)
      (requestWith [("user-agent", "Mozilla/5.0 (compatible; Googlebot/2.1)")]
         (Some "192.0.2.44"))
      flaggedWorld
    = (Return req', w')
    /\ verdict req' = (true, "bot").
Proof.
  apply bot_signature_decides. right.
  exists "bot", "mozilla/5.0 (compatible; google", "/2.1)".
  split; [left; reflexivity | reflexivity].
Defined.

Lemma toLowerCase_app a b :
  JsString.toLowerCase (a +:+ b)
  = JsString.toLowerCase a +:+ JsString.toLowerCase b.
Proof.
  induction a as [| c a IH]; [reflexivity|].
  rewrite app_cons. cbn [JsString.toLowerCase]. rewrite app_cons. now f_equal.
Qed.

(** X13. Whatever the mode, the user agent sent upstream for a suspicious
    request is one that the bot check of [guard] itself matches: it is
    empty, or it ends in [bot]. *)
Theorem substituted_agent_is_bot env req :
  suspicious req = true ->
  looksLikeBot (JsString.toLowerCase (uaToSend env req)) = true.
Proof.
  intros Hs. unfold uaToSend. rewrite Hs. cbn [andb].
  destruct (String.eqb (whiteUaMode env) "empty"); [reflexivity|].
  unfold looksLikeBot. apply orb_true_iff. right.
  apply (some_In _ (Regex.ci (Regex.lit "bot"))); [left; reflexivity|].
  destruct (JsString.truthy (userAgentOf req)).
  - rewrite toLowerCase_app.
    change (JsString.toLowerCase " bot") with (" " +:+ "bot" +:+ "").
    rewrite <- app_assoc_s. apply test_literal.
  - reflexivity.
Qed.

Lemma substituted_agent_is_bot_witness :
  looksLikeBot (JsString.toLowerCase (uaToSend noEnv myBotRequest)) = true.
Proof. apply substituted_agent_is_bot. reflexivity. Defined.

(** ** The forwarding chain sent upstream *)

Lemma orElse_nonempty v fallback : fallback <> "" -> orElse v fallback <> "".
Proof.
  intros Hf. unfold orElse. destruct v as [s|]; [|exact Hf].
  destruct s; cbn; [exact Hf | discriminate].
Qed.

Lemma whiteUSIp_nonempty env : whiteUSIp env <> "".
Proof. apply orElse_nonempty. discriminate. Qed.

Lemma filter_truthy_In x l :
  In x (List.filter JsString.truthy l) <-> In x l /\ x <> "".
Proof. rewrite filter_In. now rewrite truthy_nonempty. Qed.

Lemma incomingParts_nonempty req x : In x (incomingParts req) -> x <> "".
Proof. unfold incomingParts. intros H. now apply filter_truthy_In in H. Qed.

Lemma chain_shape env req :
  clientIpToSend env req <> "" ->
  exists rest,
    outgoingParts env req = clientIpToSend env req :: rest
    /\ rest = List.filter
               (fun addr => negb (String.eqb addr (clientIpToSend env req))
                            && negb (String.eqb addr "unknown"))
               (incomingParts req)
    /\ ~ In (clientIpToSend env req) rest
    /\ ~ In "unknown" rest
    /\ ~ In "" rest.
Proof.
  intros Hc. set (c := clientIpToSend env req) in *.
  set (keep := fun addr => negb (String.eqb addr c)
                           && negb (String.eqb addr "unknown")).
  exists (List.filter keep (incomingParts req)).
  assert (forall x, In x (List.filter keep (incomingParts req)) ->
                    x <> c /\ x <> "unknown" /\ x <> "") as Hrest.
  { intros x [Hin Hk]%filter_In. apply incomingParts_nonempty in Hin.
    unfold keep in Hk. apply andb_true_iff in Hk as [H1 H2].
    apply negb_true_iff in H1, H2.
    apply String.eqb_neq in H1, H2. auto. }
  split.
  - unfold outgoingParts, chainWith. fold c. fold keep. cbn [List.filter].
    apply truthy_nonempty in Hc as ->. f_equal.
    apply forallb_filter_id. apply forallb_forall.
    intros x Hx. apply truthy_nonempty. now apply Hrest.
  - split; [reflexivity|].
    repeat split; intros Hin; apply Hrest in Hin; tauto.
Qed.

(** X14. The chain put in [X-Forwarded-For] starts with the address chosen
    for the request, when there is one; after it come, in their order, the
    elements of the incoming chain that are neither that address nor
    [unknown]; so the chosen address stands once, no element is empty, and
    [unknown] stands nowhere after the head. *)
Theorem outgoing_chain_shape env req :
  clientIpToSend env req <> "" ->
  exists rest,
    outgoingParts env req = clientIpToSend env req :: rest
    /\ rest = List.filter
               (fun addr => negb (String.eqb addr (clientIpToSend env req))
                            && negb (String.eqb addr "unknown"))
               (incomingParts req)
    /\ ~ In (clientIpToSend env req) rest
    /\ ~ In "unknown" rest
    /\ ~ In "" rest.
Proof. apply chain_shape. Qed.

Lemma outgoing_chain_shape_witness :
  outgoingParts noEnv
    (mark (requestWith
             [("x-forwarded-for", "203.0.113.7, unknown, 23.239.11.1, 10.0.0.1")]
             None) "bot")
  = ["23.239.11.1"; "203.0.113.7"; "10.0.0.1"].
Proof.
  destruct (outgoing_chain_shape noEnv
              (mark (requestWith
                       [("x-forwarded-for",
                         "203.0.113.7, unknown, 23.239.11.1, 10.0.0.1")]
                       None) "bot"))
    as (rest & -> & -> & _).
  - discriminate.
  - reflexivity.
Defined.

Lemma orElse_header xff : orElse (Some xff) "" = xff.
Proof. unfold orElse. now destruct xff. Qed.

(** X15. The substitution does not remove the client from the chain: for
    a suspicious request whose forwarding header starts with an address
    (other than the substitute and [unknown]), the chain sent upstream is
    the substitute address followed by that very address. *)
Theorem cloak_keeps_client_in_chain env req xff :
  suspicious req = true ->
  headers req !! "x-forwarded-for" = Some xff ->
  let first := JsString.trim (hd "" (JsString.split "," xff)) in
  first <> "" ->
  first <> whiteUSIp env ->
  first <> "unknown" ->
  exists rest, outgoingParts env req = whiteUSIp env :: first :: rest.
Proof.
  intros Hs Hx first Hne Hw Hu.
  unfold outgoingParts, clientIpToSend, incomingParts, chainWith.
  rewrite Hs, Hx, orElse_header. subst first.
  destruct (split_head "," xff) as (f & r & Hsplit). rewrite Hsplit in *.
  cbn [hd map] in *. cbn [List.filter].
  apply truthy_nonempty in Hne as Ht. rewrite Ht. cbn [List.filter].
  apply String.eqb_neq in Hw as ->. apply String.eqb_neq in Hu as ->.
  cbn [negb andb List.filter].
  pose proof (whiteUSIp_nonempty env) as Hwhite.
  apply truthy_nonempty in Hwhite as ->. rewrite Ht. eauto.
Qed.

Lemma cloak_keeps_client_in_chain_witness :
  exists rest,
    outgoingParts noEnv
      (mark (requestWith [("user-agent", "curl/8.0");
                          ("x-forwarded-for", "203.0.113.7, 10.0.0.1")]
               (Some "203.0.113.7")) "bot")
    = "23.239.11.1" :: "203.0.113.7" :: rest.
Proof.
  apply (cloak_keeps_client_in_chain noEnv _ "203.0.113.7, 10.0.0.1");
    (reflexivity || discriminate).
Defined.

Lemma split_app_head sep a s :
  hasChar sep a = false ->
  hd "" (JsString.split sep (a +:+ s)) = a +:+ hd "" (JsString.split sep s).
Proof.
  induction a as [| x a IH]; intros H; [reflexivity|].
  cbn in H. apply orb_false_iff in H as [Hx Ha].
  rewrite app_cons. cbn [JsString.split]. rewrite Hx.
  specialize (IH Ha).
  destruct (split_head sep (a +:+ s)) as (f & r & Hs). rewrite Hs in *.
  cbn [hd] in *. rewrite app_cons. now f_equal.
Qed.

Lemma join_head sep c rest :
  exists tail, join sep (c :: rest) = c +:+ tail
               /\ (tail = "" \/ exists t, tail = sep +:+ t).
Proof.
  destruct rest as [| d rest].
  - exists "". cbn. rewrite app_empty_r. auto.
  - exists (sep +:+ join sep (d :: rest)). split; [reflexivity|]. eauto.
Qed.

(** X16. A server that resolves its client the way this one does reads,
    from the chain sent upstream, the address chosen for the request:
    [detectClientIp] on a request carrying the outgoing [X-Forwarded-For]
    gives the chosen address, normalized, provided that address is not
    empty, is trimmed and holds no comma. *)
Theorem chain_head_resolves env req :
  clientIpToSend env req <> "" ->
  JsString.trim (clientIpToSend env req) = clientIpToSend env req ->
  hasChar "," (clientIpToSend env req) = false ->
  detectClientIp (requestWith [("x-forwarded-for", outgoingXFF env req)] None)
  = normalizeIp (clientIpToSend env req).
Proof.
  intros Hc Htrim Hcomma.
  destruct (chain_shape env req Hc) as (rest & Hparts & _).
  unfold outgoingXFF. rewrite Hparts.
  set (c := clientIpToSend env req) in *.
  destruct (join_head ", " c rest) as (tail & -> & Htail).
  unfold detectClientIp, requestWith. cbn [headers list_to_map foldr].
  rewrite lookup_insert_eq. cbn [fst snd].
  assert (JsString.truthy (c +:+ tail) = true) as ->.
  { destruct c; [now contradiction Hc | reflexivity]. }
  assert (hd "" (JsString.split "," (c +:+ tail)) = c) as ->.
  { rewrite split_app_head by exact Hcomma.
    destruct Htail as [-> | (t & ->)]; cbn; apply app_empty_r. }
  rewrite Htrim. now apply truthy_nonempty in Hc as ->.
Qed.

Lemma chain_head_resolves_witness :
  detectClientIp
    (requestWith [("x-forwarded-for", outgoingXFF noEnv chainRequest)] None)
  = "203.0.113.7".
Proof.
  apply (chain_head_resolves noEnv chainRequest); (reflexivity || discriminate).
Defined.

(** ** The two variants of the server, and the route as a whole *)

Ltac by_header name :=
  repeat match goal with
         | |- context [String.eqb ?k name] => destruct (String.eqb_spec k name)
         end.

Lemma reqId_from_header fresh1 fresh2 req :
  carriesCorrelationId req -> reqIdOf fresh1 req = reqIdOf fresh2 req.
Proof.
  intros (name & id & Hin & Hh & Hne). apply truthy_nonempty in Hne.
  unfold reqIdOf, orElse.
  destruct Hin as [<- | [<- | [<- | []]]].
  - now rewrite Hh, Hne.
  - rewrite Hh, Hne. now destruct (headers req !! "x-req-id") as [s|].
  - rewrite Hh, Hne.
    destruct (headers req !! "x-req-id") as [s|];
      destruct (headers req !! "x-request-id") as [t|]; reflexivity.
Qed.

Lemma reqId_generated fresh req :
  ~ carriesCorrelationId req -> reqIdOf fresh req = fresh.
Proof.
  intros Hno.
  assert (forall name, In name ["x-req-id"; "x-request-id"; "x-correlation-id"] ->
                       orElse (headers req !! name) fresh = fresh) as H.
  { intros name Hin. unfold orElse.
    destruct (headers req !! name) as [id|] eqn:Hh; [|reflexivity].
    destruct (JsString.truthy id) eqn:Ht; [|reflexivity].
    exfalso. apply Hno. exists name, id.
    split; [exact Hin|]. split; [exact Hh|]. now apply truthy_nonempty. }
  unfold reqIdOf.
  rewrite (H "x-correlation-id") by (cbn; auto).
  rewrite (H "x-request-id") by (cbn; auto).
  apply H. cbn. auto.
Qed.

(** X17. For a request that is not suspicious, [index.js] sends upstream
    every header the older variant sends, [X-Req-Id] apart, with the same
    value: the substitution changes nothing for it.  [X-Req-Id] is the same
    too when the request carries a correlation id in one of the three
    headers read for it; when it carries none, each variant sends the id
    that its own call of [genReqId] made. *)
Theorem variants_send_same env carrier fresh freshOld req :
  suspicious req = false ->
  (forall name value,
      name <> "X-Req-Id" ->
      sent name (fetchHeadersOld carrier freshOld req) = Some value ->
      sent name (fetchHeaders env carrier fresh req) = Some value)
  /\ (carriesCorrelationId req ->
      sent "X-Req-Id" (fetchHeaders env carrier fresh req)
      = sent "X-Req-Id" (fetchHeadersOld carrier freshOld req))
  /\ (~ carriesCorrelationId req ->
      sent "X-Req-Id" (fetchHeaders env carrier fresh req) = Some fresh
      /\ sent "X-Req-Id" (fetchHeadersOld carrier freshOld req)
         = Some freshOld).
Proof.
  intros Hs. split; [|split].
  - intros name value Hname.
    unfold fetchHeaders, fetchHeadersOld, outgoingXFF, outgoingParts,
      uaToSend, clientIpToSend.
    rewrite Hs. cbn [andb sent].
    by_header name; congruence.
  - intros Hid. cbn. f_equal. now apply reqId_from_header.
  - intros Hno. cbn. now rewrite !reqId_generated.
Qed.

Lemma variants_send_same_witness :
  sent "X-Forwarded-For"
    (fetchHeaders noEnv {| protocol := "https"; secure := true |}
       "7c9e6679-7425-40de-944b-e07fc1f90ae7" chainRequest)
  = Some "203.0.113.7, ::ffff:203.0.113.7, 10.0.0.1".
Proof.
  apply (proj1 (variants_send_same noEnv
                  {| protocol := "https"; secure := true |}
                  "7c9e6679-7425-40de-944b-e07fc1f90ae7"
                  "1b4e28ba-2fa1-11d2-883f-0016d3cca427"
                  chainRequest eq_refl));
    [discriminate | reflexivity].
Defined.

(** X18. On an upstream answer that carries its final URL, the two
    variants return the same image and the same link; where the older one
    answers with status 500, [index.js] answers with both fields empty. *)
Theorem answers_agree site upstream :
  (forall response, upstream = Some response -> url response <> "") ->
  match answerOld site upstream with
  | Ok200 image offer =>
      answer site upstream = {| image_url := image; site_url := offer |}
  | Error500 _ =>
      answer site upstream = {| image_url := ""; site_url := "" |}
  end.
Proof.
  intros Hurl. destruct upstream as [response|]; [|reflexivity].
  specialize (Hurl response eq_refl). apply truthy_nonempty in Hurl.
  unfold answer, answerOld. rewrite Hurl. cbn [andb].
  destruct (String.eqb (url response) (requestedUrl site)); cbn; [|reflexivity].
  now destruct (text response).
Qed.

Lemma answers_agree_witness :
  answer defaultSite (page defaultSite "<img src='/a.png'>")
  = {| image_url := "https://origin.skytalonsacademy.lol/lander/skytalons/a.png";
       site_url := "" |}.
Proof.
  apply (answers_agree defaultSite (page defaultSite "<img src='/a.png'>")).
  intros response [= <-]. discriminate.
Defined.

(** X19. The route as a whole never throws.  The upstream is asked with
    the headers built from the request as [guard] leaves it: a request no
    check matched carries its own user agent and its own address in the
    three address headers; one that a check matched carries the substitute
    address, which is never empty, in all three. *)
Theorem route_identity amb env site carrier fresh upstream req w :
  exists req' w',
    guard amb req w = (Return req', w')
    /\ route amb env site carrier fresh upstream req w
       = (Return (answer site (upstream (fetchHeaders env carrier fresh req'))),
          w')
    /\ let hs := fetchHeaders env carrier fresh req' in
       (suspicious req' = false ->
          sent "User-Agent" hs = Some (userAgentOf req)
          /\ sent "CF-Connecting-IP" hs = Some (detectClientIp req)
          /\ sent "True-Client-IP" hs = Some (detectClientIp req)
          /\ sent "X-Real-IP" hs = Some (detectClientIp req))
       /\ (suspicious req' = true ->
           whiteUSIp env <> ""
           /\ sent "CF-Connecting-IP" hs = Some (whiteUSIp env)
           /\ sent "True-Client-IP" hs = Some (whiteUSIp env)
           /\ sent "X-Real-IP" hs = Some (whiteUSIp env)).
Proof.
  destruct (guard_returns amb req w) as (req' & w' & Hg).
  exists req', w'. split; [exact Hg|]. split.
  - unfold route, bind. now rewrite Hg.
  - destruct (guard_request_kept _ _ _ _ _ Hg) as (Ha & Hu).
    cbv zeta. unfold fetchHeaders, uaToSend, clientIpToSend. split; intros Hs;
      rewrite Hs; cbn; rewrite ?Ha, ?Hu; auto using whiteUSIp_nonempty.
Qed.

Lemma route_identity_witness :
  exists req' w',
    guard (cleanAt 1000 1001) curlRequest emptyWorld = (Return req', w')
    /\ sent "X-Real-IP"
         (fetchHeaders noEnv {| protocol := "https"; secure := true |}
            "7c9e6679-7425-40de-944b-e07fc1f90ae7" req')
       = Some "23.239.11.1".
Proof.
  destruct (route_identity (cleanAt 1000 1001) noEnv defaultSite
              {| protocol := "https"; secure := true |}
              "7c9e6679-7425-40de-944b-e07fc1f90ae7"
              (fun _ => None) curlRequest emptyWorld)
    as (req' & w' & Hg & _ & _ & Hsub).
  exists req', w'. split; [exact Hg|].
  apply Hsub. vm_compute in Hg. now injection Hg as <- _.
Defined.

(** ** Searching in strings *)

Lemma len_app a b : JsString.len (a +:+ b) = JsString.len a + JsString.len b.
Proof. unfold JsString.len. rewrite length_append_s. lia. Qed.

Lemma drop_app a b : JsString.drop (String.length a) (a +:+ b) = b.
Proof. induction a as [| x a IH]; [now destruct b | exact IH]. Qed.

Lemma take_app a b : JsString.take (String.length a) (a +:+ b) = a.
Proof.
  induction a as [| x a IH]; [now destruct b|].
  rewrite app_cons. cbn. now f_equal.
Qed.

Lemma get_app a c r : String.get (String.length a) (a +:+ String c r) = Some c.
Proof. induction a as [| x a IH]; [reflexivity | exact IH]. Qed.

Lemma startsWith_self p s : JsString.startsWith p (p +:+ s) = true.
Proof.
  induction p as [| c p IH]; [reflexivity|].
  rewrite app_cons. cbn. now rewrite Ascii.eqb_refl.
Qed.

(** A prefix match that begins inside [a] and does not end there goes on
    into [s] with what is left of the pattern. *)
Lemma startsWith_straddle a : forall p s,
  JsString.startsWith p (a +:+ s) = true ->
  JsString.startsWith p a = true
  \/ ((String.length a < String.length p)%nat
      /\ JsString.startsWith (JsString.drop (String.length a) p) s = true).
Proof.
  induction a as [| x a IH]; intros p s H.
  - destruct p; [now left|]. right. split; [cbn; lia | exact H].
  - destruct p as [| y p]; [now left|].
    rewrite app_cons in H. cbn in H. apply andb_true_iff in H as [Hy Hp].
    destruct (IH p s Hp) as [Hl | [Hlen Hr]].
    + left. cbn. now rewrite Hy, Hl.
    + right. split; [cbn; lia | exact Hr].
Qed.

Lemma drop_head_char k : forall s d r,
  JsString.drop k s = String d r -> hasChar d s = true.
Proof.
  induction k as [| k IH]; intros s d r H.
  - cbn in H. subst s. cbn. now rewrite Ascii.eqb_refl.
  - destruct s as [| x s]; [discriminate H|]. cbn in H.
    cbn. rewrite (IH _ _ _ H). apply orb_true_r.
Qed.

Lemma find_unfold needle s :
  JsString.find needle s
  = if JsString.startsWith needle s then Some O
    else match s with
         | EmptyString => None
         | String _ r => option_map S (JsString.find needle r)
         end.
Proof. now destruct s. Qed.

Lemma drop_empty_length k : forall s,
  JsString.drop k s = "" -> (String.length s <= k)%nat.
Proof.
  induction k as [| k IH]; intros s H; [cbn in H; now subst|].
  destruct s as [| x s]; cbn in *; [lia|]. specialize (IH _ H). lia.
Qed.

(** The first occurrence of a pattern whose first character does not come
    back in it: after a text that does not hold the pattern, it is found
    right where it stands. *)
Lemma find_fresh c tail pre rest :
  hasChar c tail = false ->
  JsString.find (String c tail) pre = None ->
  JsString.find (String c tail) (pre +:+ String c tail +:+ rest)
  = Some (String.length pre).
Proof.
  intros Hfresh. induction pre as [| x pre IH]; intros Hnone.
  - change ("" +:+ String c tail +:+ rest) with (String c tail +:+ rest).
    rewrite find_unfold. now rewrite startsWith_self.
  - rewrite find_unfold in Hnone.
    destruct (JsString.startsWith (String c tail) (String x pre)) eqn:Hsw;
      [discriminate Hnone|].
    destruct (JsString.find (String c tail) pre) eqn:Hf; [discriminate Hnone|].
    rewrite app_cons, find_unfold, (IH eq_refl).
    destruct (JsString.startsWith (String c tail)
                (String x (pre +:+ String c tail +:+ rest))) eqn:Hgo;
      [|reflexivity].
    exfalso. rewrite <- app_cons in Hgo.
    destruct (startsWith_straddle _ _ _ Hgo) as [Hin | [Hlen Hr]];
      [congruence|].
    cbn [String.length JsString.drop] in Hr, Hlen.
    destruct (JsString.drop (String.length pre) tail) as [| d r] eqn:Hd.
    + apply drop_empty_length in Hd. lia.
    + rewrite app_cons in Hr. cbn in Hr. apply andb_true_iff in Hr as [Hdc _].
      apply Ascii.eqb_eq in Hdc. subst d.
      apply drop_head_char in Hd. congruence.
Qed.

Lemma find_char_none q value :
  hasChar q value = false -> JsString.find (String q "") value = None.
Proof.
  induction value as [| x v IH]; intros H; [reflexivity|].
  cbn in H. apply orb_false_iff in H as [Hx Hv].
  rewrite find_unfold. cbn [JsString.startsWith].
  rewrite Ascii.eqb_sym, Hx. cbn. now rewrite (IH Hv).
Qed.

Lemma indexOf_at P needle S i :
  JsString.find needle S = Some i ->
  JsString.indexOf needle (P +:+ S) (JsString.len P)
  = JsString.len P + Z.of_nat i.
Proof.
  intros H. unfold JsString.indexOf. rewrite len_app.
  unfold JsString.len at 1 2 3.
  replace (Z.to_nat _) with (String.length P) by lia.
  rewrite drop_app, H. unfold JsString.len. lia.
Qed.

Lemma at_at P c r : JsString.at_ (P +:+ String c r) (JsString.len P) = Some c.
Proof.
  unfold JsString.at_, JsString.len.
  destruct (Z.ltb_spec (Z.of_nat (String.length P)) 0); [lia|].
  rewrite Nat2Z.id. apply get_app.
Qed.

Lemma substring_at P v r :
  JsString.substring (P +:+ v +:+ r) (JsString.len P)
    (JsString.len P + JsString.len v) = v.
Proof.
  unfold JsString.substring. rewrite !len_app. unfold JsString.len.
  match goal with
  | |- JsString.take (Z.to_nat ?n) (JsString.drop (Z.to_nat ?m) _) = _ =>
      replace (Z.to_nat n) with (String.length v) by lia;
      replace (Z.to_nat m) with (String.length P) by lia
  end.
  rewrite drop_app. apply take_app.
Qed.

(** ** The image of a well-formed page *)

(** X20. On a page whose first [<img] is followed by [src=], a delimiter
    character, a value without that character, and the delimiter again,
    the image is that value, trimmed: returned as it is when it is empty or
    starts with [http://] or [https://], and otherwise put under the lander
    path of the origin with its leading slashes removed.  What stands
    before the tag, between [<img] and [src=] and after the closing
    delimiter does not matter, as long as [<img] and [src=] do not occur
    earlier. *)
Theorem firstImage_wellformed site pre mid q value post :
  JsString.find "<img" pre = None ->
  JsString.find "src=" mid = None ->
  hasChar q value = false ->
  firstImage site
    (pre +:+ "<img" +:+ mid +:+ "src=" +:+ String q (value +:+ String q post))
  = let imageUrl := JsString.trim value in
    if JsString.truthy imageUrl && negb (Regex.test absoluteUrl imageUrl)
    then match baseOrigin site with
         | Some origin =>
             origin +:+ "/lander/" +:+ LANDER_NAME +:+ "/"
                    +:+ stripLeadingSlashes imageUrl
         | None => imageUrl
         end
    else imageUrl.
Proof.
  intros Hpre Hmid Hq.
  set (R := String q (value +:+ String q post)).
  set (html := pre +:+ "<img" +:+ mid +:+ "src=" +:+ R).
  (* the tag *)
  assert (JsString.indexOf "<img" html 0 = JsString.len pre) as Himg.
  { pose proof (indexOf_at "" "<img" html (String.length pre)) as H.
    change ("" +:+ html) with html in H. change (JsString.len "") with 0 in H.
    rewrite H; [unfold JsString.len; lia|].
    apply (find_fresh "<" "img" pre (mid +:+ "src=" +:+ R)); [reflexivity|].
    exact Hpre. }
  (* the attribute *)
  assert (JsString.indexOf "src=" html (JsString.len pre)
          = JsString.len pre + 4 + JsString.len mid) as Hsrc.
  { subst html.
    rewrite (indexOf_at pre "src=" _ (4 + String.length mid)).
    - unfold JsString.len. lia.
    - replace ("<img" +:+ mid +:+ "src=" +:+ R)
        with (("<img" +:+ mid) +:+ "src=" +:+ R)
        by (now rewrite app_assoc_s).
      rewrite (find_fresh "s" "rc=" ("<img" +:+ mid) R); [reflexivity.. |].
      change ("<img" +:+ mid)
        with (String "<" (String "i" (String "m" (String "g" mid)))).
      cbn. now rewrite Hmid. }
  set (P4 := pre +:+ "<img" +:+ mid +:+ "src=").
  assert (JsString.len P4 = JsString.len pre + 4 + JsString.len mid + 4) as HP4.
  { subst P4. rewrite !len_app. unfold JsString.len. cbn. lia. }
  assert (html = P4 +:+ R) as Hhtml4.
  { subst html P4. now rewrite !app_assoc_s. }
  set (P5 := P4 +:+ String q "").
  assert (JsString.len P5 = JsString.len P4 + 1) as HP5.
  { subst P5. rewrite len_app. reflexivity. }
  assert (html = P5 +:+ value +:+ String q post) as Hhtml5.
  { rewrite Hhtml4. subst P5 R. now rewrite app_assoc_s. }
  unfold firstImage. fold html. rewrite Himg.
  destruct (Z.eqb_spec (JsString.len pre) (-1)) as [Hneg|_];
    [unfold JsString.len in Hneg; lia|].
  rewrite Hsrc.
  destruct (Z.eqb_spec (JsString.len pre + 4 + JsString.len mid) (-1))
    as [Hneg|_]; [unfold JsString.len in Hneg; lia|].
  (* the delimiter, and where it comes back *)
  replace (JsString.len pre + 4 + JsString.len mid + 4)
    with (JsString.len P4) by lia.
  replace (JsString.len pre + 4 + JsString.len mid + 5)
    with (JsString.len P5) by lia.
  assert (JsString.at_ html (JsString.len P4) = Some q) as ->
    by (rewrite Hhtml4; apply at_at).
  cbn [JsString.ofChar].
  assert (JsString.indexOf (String q "") html (JsString.len P5)
          = JsString.len P5 + JsString.len value) as ->.
  { rewrite Hhtml5.
    rewrite (indexOf_at P5 (String q "") _ (String.length value));
      [reflexivity|].
    apply (find_fresh q "" value post); [reflexivity|].
    now apply find_char_none. }
  assert (JsString.substring html (JsString.len P5)
            (JsString.len P5 + JsString.len value) = value) as ->
    by (rewrite Hhtml5; apply substring_at).
  reflexivity.
Qed.

Lemma firstImage_wellformed_witness :
  firstImage defaultSite
    ("<html><body>" +:+ "<img" +:+ " id='x' alt='logo' " +:+ "src="
       +:+ String "'" ("  //img/pic.png " +:+ String "'" " width='10'></body>"))
  = "https://origin.skytalonsacademy.lol/lander/skytalons/img/pic.png".
Proof.
  apply (firstImage_wellformed defaultSite "<html><body>"
           " id='x' alt='logo' " "'" "  //img/pic.png " " width='10'></body>");
    reflexivity.
Defined.

(** ** Absolute addresses *)

(** Without [\b] a match stays a match when the text goes on. *)
Lemma matchAt_extend i r x :
  noBoundary r = true ->
  forall prev s (k k' : option ascii -> string -> bool),
    (forall p t, k p t = true -> k' p (t +:+ x) = true) ->
    Regex.matchAt i r prev s k = true ->
    Regex.matchAt i r prev (s +:+ x) k' = true.
Proof.
  induction r as [c | | | | | r1 IH1 r2 IH2 | r1 IH1 r2 IH2 | r1 IH1];
    cbn [noBoundary Regex.matchAt]; intros Hnb prev s k k' Hk H;
    try discriminate Hnb.
  - destruct s as [| a s]; [discriminate H|]. rewrite app_cons.
    destruct (Regex.sameChar i a c); [now apply Hk | discriminate H].
  - destruct s as [| a s]; [discriminate H|]. rewrite app_cons.
    destruct (JsString.isSpace a); [now apply Hk | discriminate H].
  - destruct prev; [discriminate H | now apply Hk].
  - now apply Hk.
  - apply andb_true_iff in Hnb as [H1 H2].
    apply (IH1 H1 prev s (fun p s' => Regex.matchAt i r2 p s' k)); [|exact H].
    intros p t Ht. now apply (IH2 H2 p t k k').
  - apply andb_true_iff in Hnb as [H1 H2].
    apply orb_true_iff in H as [H | H]; apply orb_true_iff.
    + left. now apply (IH1 H1 prev s k k').
    + right. now apply (IH2 H2 prev s k k').
  - apply orb_true_iff in H as [H | H]; apply orb_true_iff.
    + left. now apply (IH1 Hnb prev s k k').
    + right. now apply Hk.
Qed.

Lemma searchFrom_unfold i r prev s :
  Regex.searchFrom i r prev s
  = Regex.matchAt i r prev s (fun _ _ => true)
    || match s with
       | EmptyString => false
       | String c s' => Regex.searchFrom i r (Some c) s'
       end.
Proof. now destruct s. Qed.

(** An expression that starts with [^] matches at the start or nowhere. *)
Lemma anchored_later i r s : forall c,
  Regex.searchFrom i (Regex.Cat Regex.Bol r) (Some c) s = false.
Proof.
  induction s as [| a s IH]; intros c; rewrite searchFrom_unfold; cbn;
    [reflexivity | apply IH].
Qed.

Lemma absolute_extend origin x :
  Regex.test absoluteUrl origin = true ->
  Regex.test absoluteUrl (origin +:+ x) = true.
Proof.
  unfold Regex.test, absoluteUrl. cbn [Regex.ci Regex.source Regex.ignoreCase].
  rewrite !searchFrom_unfold. intros H.
  apply orb_true_iff in H as [H | H].
  - apply orb_true_iff. left.
    eapply (matchAt_extend _ _ x); [reflexivity | | exact H]. reflexivity.
  - destruct origin as [| c o]; [discriminate H|].
    now rewrite anchored_later in H.
Qed.

(** X21. With an origin that is itself an [http] or [https] address, the
    image the endpoint returns is never a relative address: it is empty,
    or it starts with [http://] or [https://], whatever the upstream
    answered. *)
Theorem image_is_absolute site origin upstream :
  baseOrigin site = Some origin ->
  Regex.test absoluteUrl origin = true ->
  image_url (answer site upstream) = ""
  \/ Regex.test absoluteUrl (image_url (answer site upstream)) = true.
Proof.
  intros Ho Habs. unfold answer.
  destruct upstream as [response|]; [|now left].
  destruct (JsString.truthy (url response)
            && negb (String.eqb (url response) (requestedUrl site)));
    [now left|].
  destruct (text response) as [html|]; [|now left].
  cbn [image_url]. unfold firstImage. rewrite Ho.
  destruct (JsString.indexOf "<img" html 0 =? -1); [now left|].
  destruct (JsString.indexOf "src=" html (JsString.indexOf "<img" html 0) =? -1);
    [now left|].
  cbv zeta.
  match goal with
  | |- context [JsString.trim ?t] => set (imageUrl := JsString.trim t)
  end.
  destruct (JsString.truthy imageUrl) eqn:Ht; cbn [andb].
  - destruct (Regex.test absoluteUrl imageUrl) eqn:Ha; cbn [negb].
    + now right.
    + right. now apply absolute_extend.
  - left. now destruct imageUrl.
Qed.

Lemma image_is_absolute_witness :
  image_url (answer defaultSite (page defaultSite "<p><img src=pic.png></p>"))
  = ""
  \/ Regex.test absoluteUrl
       (image_url (answer defaultSite
                     (page defaultSite "<p><img src=pic.png></p>"))) = true.
Proof.
  apply (image_is_absolute defaultSite "https://origin.skytalonsacademy.lol");
    reflexivity.
Defined.

(** ** What the lookup and the guard do not touch or read *)


(** X23. Of a request, [guard] reads the user agent and the resolved
    address only: two requests that agree on both get the same verdict and
    leave the same world, whatever else their headers hold. *)
Theorem guard_reads_agent_and_address amb req1 req2 w q1 w1 q2 w2 :
  userAgentOf req1 = userAgentOf req2 ->
  detectClientIp req1 = detectClientIp req2 ->
  guard amb req1 w = (Return q1, w1) ->
  guard amb req2 w = (Return q2, w2) ->
  verdict q1 = verdict q2 /\ w1 = w2.
Proof.
  intros Hu Ha H1 H2.
  destruct (lookup_returns amb (detectClientIp req1) w) as (flag & wl & Hrun & _).
  rewrite (guard_run _ _ _ _ _ Hrun) in H1.
  rewrite Ha in Hrun. rewrite (guard_run _ _ _ _ _ Hrun) in H2.
  injection H1 as <- <-. injection H2 as <- <-.
  unfold verdict, botCondition, emulatorCondition.
  cbn [suspicious suspiciousReason]. now rewrite Hu, Ha.
Qed.

Lemma guard_reads_agent_and_address_witness :
  exists q1 w1 q2 w2,
    guard (cleanAt 1000 1001) browserRequest emptyWorld = (Return q1, w1)
    /\ guard (cleanAt 1000 1001)
         (requestWith
            [ ("user-agent", "Mozilla/5.0 (Windows NT 10.0; Win64; x64)");
              ("accept-language", "de-DE") ]
            (Some "::ffff:203.0.113.7"))
         emptyWorld = (Return q2, w2)
    /\ verdict q1 = verdict q2 /\ w1 = w2.
Proof.
  destruct (guard_returns (cleanAt 1000 1001) browserRequest emptyWorld)
    as (q1 & w1 & H1).
  destruct (guard_returns (cleanAt 1000 1001)
              (requestWith
                 [ ("user-agent", "Mozilla/5.0 (Windows NT 10.0; Win64; x64)");
                   ("accept-language", "de-DE") ]
                 (Some "::ffff:203.0.113.7"))
              emptyWorld) as (q2 & w2 & H2).
  exists q1, w1, q2, w2. split; [exact H1|]. split; [exact H2|].
  eapply guard_reads_agent_and_address; [| | exact H1 | exact H2]; reflexivity.
Defined.
